(** * The [kn vsphere source] command

    A shallow embedding of [plugins/vsphere/pkg/command/source.go]: the
    [SourceOptions] record, the construction of the sink destination, the
    validation done in [PreRunE], the creation done in [RunE] and the
    assembly of the [VSphereSource] in [newSource].

    Go strings are [string]; a Go [error] is modelled by its [Error()] text;
    a function returning [(T, error)] returns a [result T]; [time.Duration]
    is its [int64] count of nanoseconds, in [Z]; a pointer that may be [nil]
    is an [option].  The cluster and the terminal are an explicit [World]
    that the command transforms. *)

From Stdlib Require Import String Ascii List Bool ZArith QArith Qround Qabs Qpower Lia Lqa.
From Stdlib Require Floats.SpecFloat.
Import ListNotations.

Open Scope string_scope.

(** ** Go basics *)

Definition error : Type := string.

Inductive result (A : Type) : Type :=
| Ok (a : A)
| Failed (err : error).
Arguments Ok {A} a.
Arguments Failed {A} err.

(** The line feed written as [\n] in a Go literal. *)
Definition LF : string := String (ascii_of_nat 10) EmptyString.

Module fmt.
(** [fmt.Errorf(format + "%+v", err)]: for an [error] operand the verb
    prints [err.Error()]. *)
Definition Errorf (format : string) (err : error) : error := format ++ err.

(** [fmt.Fprintln(w, line)] on a writer holding [w]. *)
Definition Fprintln (w line : string) : string := w ++ line ++ LF.
End fmt.

(** ** The imported packages, as far as the command touches them *)

Module url.
(** [net/url.URL]; the command never looks inside a parsed URL. *)
Record URL : Type := { Scheme : string; Host : string; Path : string }.
End url.

Module apis.
(** [apis.URL] is a defined type over [url.URL]. *)
Definition URL : Type := url.URL.
End apis.

Module duckv1.
Record KReference : Type :=
  { Kind : string; Namespace : string; Name : string; APIVersion : string }.

Record Destination : Type :=
  { Ref : option KReference; URI : option apis.URL }.

Record SourceSpec : Type := { Sink : Destination }.
End duckv1.

Module corev1.
Record LocalObjectReference : Type := { Name : string }.
End corev1.

Module metav1.
Record ObjectMeta : Type := { Namespace : string; Name : string }.
End metav1.

Module v1alpha1.
Record VAuthSpec : Type :=
  { Address : apis.URL;
    SkipTLSVerify : bool;
    SecretRef : corev1.LocalObjectReference }.

Record VCheckpointSpec : Type :=
  { MaxAgeSeconds : Z; PeriodSeconds : Z }.

Record VSphereSourceSpec : Type :=
  { SourceSpec : duckv1.SourceSpec;
    VAuthSpec_ : VAuthSpec;
    CheckpointConfig : VCheckpointSpec }.

Record VSphereSource : Type :=
  { ObjectMeta : metav1.ObjectMeta; Spec : VSphereSourceSpec }.
End v1alpha1.

(** ** float64, as far as [time.Duration.Seconds] needs it

    A finite [float64] is modelled by the rational it denotes, and an
    operation by the exact result rounded to the nearest number with a
    53-bit significand, ties to even.  Every value that arises from an
    [int64] duration lies between [2^-30] and [2^34] in magnitude, far from
    the subnormal range and from overflow. *)

Module float64.
Local Open Scope Q_scope.

(** [floor (log2 |x|)] for [x <> 0]. *)
Definition ilog2 (x : Q) : Z :=
  let e := (Z.log2 (Z.abs (Qnum x)) - Z.log2 (Zpos (Qden x)))%Z in
  if Qle_bool (2 ^ e) (Qabs x) then e else (e - 1)%Z.

(** The nearest integer, ties to even. *)
Definition rne (y : Q) : Z :=
  let f := Qfloor y in
  match Qcompare (y - inject_Z f) (1 # 2) with
  | Lt => f
  | Gt => (f + 1)%Z
  | Eq => if Z.even f then f else (f + 1)%Z
  end.

(** The nearest multiple of [2^k]. *)
Definition round_to (k : Z) (x : Q) : Q := inject_Z (rne (x / 2 ^ k)) * 2 ^ k.

Definition round (x : Q) : Q :=
  if Qeq_bool x 0 then 0 else round_to (ilog2 x - 52) x.

(** [float64(n)] for an integer [n]. *)
Definition of_int (n : Z) : Q := round (inject_Z n).

Definition add (x y : Q) : Q := round (x + y).
Definition div (x y : Q) : Q := round (x / y).

(** [int64(x)]: the fraction is discarded. *)
Definition to_int64 (x : Q) : Z := Z.quot (Qnum x) (Zpos (Qden x)).
End float64.

Module time.
Local Open Scope Z_scope.

Definition Duration : Type := Z.

Definition Nanosecond : Duration := 1.
Definition Millisecond : Duration := 1000000.
Definition Second : Duration := 1000000000.

(** [func (d Duration) Seconds() float64]:
    [sec := d / Second; nsec := d % Second;
     return float64(sec) + float64(nsec)/1e9]. *)
Definition Seconds (d : Duration) : Q :=
  let sec := Z.quot d Second in
  let nsec := Z.rem d Second in
  float64.add (float64.of_int sec)
              (float64.div (float64.of_int nsec) (float64.of_int 1000000000)).
End time.

(** ** The same computation in the Standard Library's IEEE 754 model

    Used only to check the rational model above on concrete durations. *)

Module ieee.
Import Floats.SpecFloat.

Definition of_int (n : Z) : spec_float := binary_normalize 53 1024 n 0 false.

Definition Seconds (d : time.Duration) : spec_float :=
  SFadd 53 1024 (of_int (Z.quot d time.Second))
        (SFdiv 53 1024 (of_int (Z.rem d time.Second)) (of_int 1000000000)).

Definition to_Q (f : spec_float) : Q :=
  match f with
  | S754_finite s m e => (inject_Z (cond_Zopp s (Zpos m)) * 2 ^ e)%Q
  | _ => 0%Q
  end.
End ieee.

(** ** The world the command acts on *)

Record World : Type :=
  { requests : list (string * v1alpha1.VSphereSource);
    stdout : string }.

Module pkg.
(** [pkg.Clients]: what [ClientConfig] answers for the default namespace,
    and what the [VSphereSources(namespace).Create] call of
    [VSphereClientSet] answers for a source. *)
Record Clients : Type :=
  { ClientConfig : result string;
    VSphereClientSet : string -> v1alpha1.VSphereSource -> option error }.

(** Modelled from the spec: [Clients.GetExplicitOrDefaultNamespace], of
    [plugins/vsphere/pkg]: "if [namespace] option is empty, ask the
    namespace-resolution collaborator for the caller's default; otherwise
    use the given value verbatim". *)
Definition GetExplicitOrDefaultNamespace (c : Clients) (ns : string) : result string :=
  if ns =? EmptyString then ClientConfig c else Ok ns.
End pkg.

(** ** A command is a function of the world that may fail *)

Definition Cmd (A : Type) : Type := World -> World * result A.

Definition ret {A} (a : A) : Cmd A := fun w => (w, Ok a).

Definition bind {A B} (c : Cmd A) (k : A -> Cmd B) : Cmd B :=
  fun w =>
    match c w with
    | (w', Ok a) => k a w'
    | (w', Failed err) => (w', Failed err)
    end.

(** [x, err := r; if err != nil { return fmt.Errorf(format, err) }]. *)
Definition orfail {A} (r : result A) (format : string) : Cmd A :=
  fun w =>
    match r with
    | Ok a => (w, Ok a)
    | Failed err => (w, Failed (fmt.Errorf format err))
    end.

(** The [Create] call: the request reaches the client, which answers. *)
Definition Create (clients : pkg.Clients) (namespace : string)
    (source : v1alpha1.VSphereSource) : Cmd unit :=
  fun w =>
    let w' := {| requests := requests w ++ [(namespace, source)];
                 stdout := stdout w |} in
    match pkg.VSphereClientSet clients namespace source with
    | None => (w', Ok tt)
    | Some err => (w', Failed (fmt.Errorf "failed to create source: " err))
    end.

Definition Println (line : string) : Cmd unit :=
  fun w => ({| requests := requests w; stdout := fmt.Fprintln (stdout w) line |}, Ok tt).

Declare Scope cmd_scope.
Delimit Scope cmd_scope with cmd.
Notation "x <- c ;; k" := (bind c (fun x => k))
  (at level 61, c at next level, right associativity) : cmd_scope.
Notation "c ;;; k" := (bind c (fun _ => k))
  (at level 61, right associativity) : cmd_scope.

(** ** package command *)

Record SourceOptions : Type :=
  { Namespace : string;
    Name : string;
    Address : string;
    SkipTLSVerify : bool;
    SecretRef : string;

    SinkURI : string;
    SinkAPIVersion : string;
    SinkKind : string;
    SinkName : string;

    CheckpointMaxAge : time.Duration;
    CheckpointPeriod : time.Duration }.

Definition nonempty (s : string) : bool := negb (s =? EmptyString).

Section Command.

(** [net/url.Parse]. *)
Variable url_Parse : string -> result url.URL.

Definition sinkURL (so : SourceOptions) : result (option apis.URL) :=
  if SinkURI so =? EmptyString then Ok None
  else
    match url_Parse (SinkURI so) with
    | Failed err => Failed err
    | Ok address => Ok (Some address)
    end.

Definition sinkReference (so : SourceOptions) (namespace : string)
  : option duckv1.KReference :=
  if SinkAPIVersion so =? EmptyString then None
  else Some {| duckv1.APIVersion := SinkAPIVersion so;
               duckv1.Kind := SinkKind so;
               duckv1.Namespace := namespace;
               duckv1.Name := SinkName so |}.

Definition AsSinkDestination (so : SourceOptions) (namespace : string)
  : result duckv1.Destination :=
  match sinkURL so with
  | Failed err => Failed err
  | Ok apiURL =>
      Ok {| duckv1.Ref := sinkReference so namespace; duckv1.URI := apiURL |}
  end.

Definition newSource (namespace : string) (sinkDestination : duckv1.Destination)
    (address : url.URL) (options : SourceOptions) : v1alpha1.VSphereSource :=
  {| v1alpha1.ObjectMeta :=
       {| metav1.Namespace := namespace; metav1.Name := Name options |};
     v1alpha1.Spec :=
       {| v1alpha1.SourceSpec := {| duckv1.Sink := sinkDestination |};
          v1alpha1.VAuthSpec_ :=
            {| v1alpha1.Address := address;
               v1alpha1.SkipTLSVerify := SkipTLSVerify options;
               v1alpha1.SecretRef := {| corev1.Name := SecretRef options |} |};
          v1alpha1.CheckpointConfig :=
            {| v1alpha1.MaxAgeSeconds :=
                 float64.to_int64 (time.Seconds (CheckpointMaxAge options));
               v1alpha1.PeriodSeconds :=
                 float64.to_int64 (time.Seconds (CheckpointPeriod options)) |} |} |}.

Definition nameRequired : error :=
  "'name' requires a nonempty name provided with the --name option".
Definition addressRequired : error :=
  "'address' requires a nonempty address provided with the --address option".
Definition secretRefRequired : error :=
  "'secret-ref' requires a nonempty secret reference provided with the --secret-ref option".
Definition sinkRequired : error :=
  "sink requires an URI" ++
  LF ++ "and/or a nonempty API version --sink-api-version option," ++
  LF ++ "with a nonempty kind --sink-kind option," ++
  LF ++ "and with a nonempty name with the --sink-name".

Definition PreRunE (options : SourceOptions) : option error :=
  if Name options =? EmptyString then Some nameRequired
  else if Address options =? EmptyString then Some addressRequired
  else if SecretRef options =? EmptyString then Some secretRefRequired
  else
    let sinkCoordinatesAllEmpty :=
      (SinkAPIVersion options =? EmptyString) && (SinkKind options =? EmptyString)
      && (SinkName options =? EmptyString) in
    let sinkCoordinatesAllSet :=
      nonempty (SinkAPIVersion options) && nonempty (SinkKind options)
      && nonempty (SinkName options) in
    if (SinkURI options =? EmptyString) && sinkCoordinatesAllEmpty
       || (negb sinkCoordinatesAllEmpty && negb sinkCoordinatesAllSet)
    then Some sinkRequired
    else None.

Variable clients : pkg.Clients.

Definition RunE (options : SourceOptions) : Cmd unit :=
  (namespace <- orfail (pkg.GetExplicitOrDefaultNamespace clients (Namespace options))
                       "failed to get namespace: " ;;
   address <- orfail (url_Parse (Address options))
                     "failed to parse source address: " ;;
   sinkDestination <- orfail (AsSinkDestination options namespace)
                             "failed to parse sink address: " ;;
   Create clients namespace (newSource namespace sinkDestination address options) ;;;
   Println "Created source")%cmd.

(** Once the flags are parsed into [options], cobra runs [PreRunE] and,
    only when it returns [nil], [RunE]; the first error is what the caller
    gets. *)
Definition execute (options : SourceOptions) : Cmd unit :=
  fun w =>
    match PreRunE options with
    | Some err => (w, Failed err)
    | None => RunE options w
    end.

End Command.

(** A failed validation, with the order in which [PreRunE] looks. *)
Definition rejected (options : SourceOptions) (err : error) : Prop :=
  (Name options = EmptyString /\ err = nameRequired) \/
  (Name options <> EmptyString /\ Address options = EmptyString /\
   err = addressRequired) \/
  (Name options <> EmptyString /\ Address options <> EmptyString /\
   SecretRef options = EmptyString /\ err = secretRefRequired) \/
  (Name options <> EmptyString /\ Address options <> EmptyString /\
   SecretRef options <> EmptyString /\ err = sinkRequired).

(** ** Stand-ins used to run the command on concrete options *)

Module fake.
Definition vcLocal : url.URL :=
  {| url.Scheme := "https"; url.Host := "vc.local"; url.Path := EmptyString |}.
Definition sink : url.URL :=
  {| url.Scheme := "http"; url.Host := "sink"; url.Path := EmptyString |}.

(** A parser that knows the two URLs above and rejects everything else,
    the way [url.Parse] rejects [:sink]. *)
Definition Parse (rawURL : string) : result url.URL :=
  if rawURL =? "https://vc.local" then Ok vcLocal
  else if rawURL =? "http://sink" then Ok sink
  else Failed "missing protocol scheme".

(** A cluster whose default namespace is [default] and that accepts
    every source. *)
Definition accepting : pkg.Clients :=
  {| pkg.ClientConfig := Ok "default";
     pkg.VSphereClientSet := fun _ _ => None |}.

(** A cluster that has no default namespace and refuses every source. *)
Definition refusing : pkg.Clients :=
  {| pkg.ClientConfig := Failed "no context";
     pkg.VSphereClientSet := fun _ _ => Some "already exists" |}.

Definition idle : World := {| requests := []; stdout := EmptyString |}.

(** [--name s --address https://vc.local --secret-ref cred] and the four
    sink flags as given. *)
Definition options (sinkURI sinkAPIVersion sinkKind sinkName : string) : SourceOptions :=
  {| Namespace := EmptyString;
     Name := "s";
     Address := "https://vc.local";
     SkipTLSVerify := false;
     SecretRef := "cred";
     SinkURI := sinkURI;
     SinkAPIVersion := sinkAPIVersion;
     SinkKind := sinkKind;
     SinkName := sinkName;
     CheckpointMaxAge := (90 * time.Second + 500 * time.Millisecond)%Z;
     CheckpointPeriod := (10 * time.Second)%Z |}.

(** The same with [--name] given as the empty string. *)
Definition unnamed (sinkURI sinkAPIVersion sinkKind sinkName : string) : SourceOptions :=
  {| Namespace := EmptyString;
     Name := EmptyString;
     Address := "https://vc.local";
     SkipTLSVerify := false;
     SecretRef := "cred";
     SinkURI := sinkURI;
     SinkAPIVersion := sinkAPIVersion;
     SinkKind := sinkKind;
     SinkName := sinkName;
     CheckpointMaxAge := (90 * time.Second + 500 * time.Millisecond)%Z;
     CheckpointPeriod := (10 * time.Second)%Z |}.

(** [--checkpoint-age 4660h20m16.999999999s]: [2^24] seconds and all but
    one nanosecond of the next. *)
Definition longLived : SourceOptions :=
  {| Namespace := EmptyString;
     Name := "s";
     Address := "https://vc.local";
     SkipTLSVerify := false;
     SecretRef := "cred";
     SinkURI := "http://sink";
     SinkAPIVersion := EmptyString;
     SinkKind := EmptyString;
     SinkName := EmptyString;
     CheckpointMaxAge := (16777216 * time.Second + 999999999 * time.Nanosecond)%Z;
     CheckpointPeriod := (10 * time.Second)%Z |}.

Definition toSink : duckv1.Destination :=
  {| duckv1.Ref := None; duckv1.URI := Some sink |}.
End fake.

(** ** More stand-ins *)

Module sample.
(** [--namespace ns --name s --secret-ref cred] with the address and the
    sink URI as given, and no sink coordinates. *)
Definition addressed (address sinkURI : string) : SourceOptions :=
  {| Namespace := "ns";
     Name := "s";
     Address := address;
     SkipTLSVerify := true;
     SecretRef := "cred";
     SinkURI := sinkURI;
     SinkAPIVersion := EmptyString;
     SinkKind := EmptyString;
     SinkName := EmptyString;
     CheckpointMaxAge := (8760 * 3600 * time.Second)%Z;
     CheckpointPeriod := (30 * time.Second)%Z |}.

(** The same towards [--sink-api-version v1 --sink-kind Service
    --sink-name svc]. *)
Definition referring : SourceOptions :=
  {| Namespace := "ns";
     Name := "s";
     Address := "https://vc.local";
     SkipTLSVerify := true;
     SecretRef := "cred";
     SinkURI := EmptyString;
     SinkAPIVersion := "v1";
     SinkKind := "Service";
     SinkName := "svc";
     CheckpointMaxAge := (8760 * 3600 * time.Second)%Z;
     CheckpointPeriod := (30 * time.Second)%Z |}.

(** A cluster that refuses every source as already there. *)
Definition strict : pkg.Clients :=
  {| pkg.ClientConfig := Ok "default";
     pkg.VSphereClientSet := fun _ _ => Some "already exists" |}.
End sample.

(** * Properties *)

(** ** Strings *)

Lemma empty_true (s : string) : (s =? EmptyString) = true <-> s = EmptyString.
Proof. apply String.eqb_eq. Qed.

Lemma empty_false (s : string) : (s =? EmptyString) = false <-> s <> EmptyString.
Proof. apply String.eqb_neq. Qed.

Lemma nonempty_true (s : string) : nonempty s = true <-> s <> EmptyString.
Proof.
  unfold nonempty. rewrite negb_true_iff. apply empty_false.
Qed.

Lemma nonempty_false (s : string) : nonempty s = false <-> s = EmptyString.
Proof.
  unfold nonempty. rewrite negb_false_iff. apply empty_true.
Qed.

(** Decide every emptiness test in sight. *)
Ltac by_emptiness :=
  repeat match goal with
    | |- context [?s =? EmptyString] =>
        let E := fresh "E" in
        destruct (s =? EmptyString) eqn:E;
        [apply empty_true in E | apply empty_false in E]
    | H : context [?s =? EmptyString] |- _ =>
        let E := fresh "E" in
        destruct (s =? EmptyString) eqn:E;
        [apply empty_true in E | apply empty_false in E]
    end.

(** ** The sink destination *)

Section SinkDestination.
Variable url_Parse : string -> result url.URL.

Lemma sinkReference_unset so namespace :
  SinkAPIVersion so = EmptyString -> sinkReference so namespace = None.
Proof.
  intros E. unfold sinkReference. now rewrite E.
Qed.

Lemma sinkReference_set so namespace :
  SinkAPIVersion so <> EmptyString ->
  sinkReference so namespace =
    Some {| duckv1.APIVersion := SinkAPIVersion so;
            duckv1.Kind := SinkKind so;
            duckv1.Namespace := namespace;
            duckv1.Name := SinkName so |}.
Proof.
  intros E. unfold sinkReference. apply empty_false in E. now rewrite E.
Qed.

Lemma sinkURL_unset so : SinkURI so = EmptyString -> sinkURL url_Parse so = Ok None.
Proof.
  intros E. unfold sinkURL. now rewrite E.
Qed.

Lemma sinkURL_set so :
  SinkURI so <> EmptyString ->
  sinkURL url_Parse so =
    match url_Parse (SinkURI so) with
    | Ok address => Ok (Some address)
    | Failed err => Failed err
    end.
Proof.
  intros E. unfold sinkURL. apply empty_false in E. rewrite E.
  now destruct (url_Parse (SinkURI so)).
Qed.

(** Whatever is built carries [sinkReference] and the parsed [SinkURI]. *)
Lemma AsSinkDestination_Ok so namespace d :
  AsSinkDestination url_Parse so namespace = Ok d ->
  duckv1.Ref d = sinkReference so namespace /\
  sinkURL url_Parse so = Ok (duckv1.URI d).
Proof.
  unfold AsSinkDestination. destruct (sinkURL url_Parse so) as [apiURL|err].
  - intros [= <-]. now split.
  - discriminate.
Qed.

End SinkDestination.

(** ** Validation *)

(** What [PreRunE] accepts. *)
Lemma PreRunE_None options :
  PreRunE options = None <->
  Name options <> EmptyString /\ Address options <> EmptyString /\
  SecretRef options <> EmptyString /\
  ((SinkURI options <> EmptyString /\ SinkAPIVersion options = EmptyString /\
    SinkKind options = EmptyString /\ SinkName options = EmptyString) \/
   (SinkAPIVersion options <> EmptyString /\ SinkKind options <> EmptyString /\
    SinkName options <> EmptyString)).
Proof.
  unfold PreRunE, nonempty. split.
  - intros H. by_emptiness; simpl in H; try discriminate; intuition congruence.
  - intros (N & A & S & [(U & V & K & M) | (V & K & M)]);
      by_emptiness; simpl; congruence.
Qed.

(** The required options are looked at first, in the order of the source. *)
Lemma PreRunE_required options :
  Name options = EmptyString \/ Address options = EmptyString \/
  SecretRef options = EmptyString ->
  (Name options = EmptyString /\ PreRunE options = Some nameRequired) \/
  (Name options <> EmptyString /\ Address options = EmptyString /\
   PreRunE options = Some addressRequired) \/
  (Name options <> EmptyString /\ Address options <> EmptyString /\
   SecretRef options = EmptyString /\ PreRunE options = Some secretRefRequired).
Proof.
  unfold PreRunE. intros H. by_emptiness; intuition congruence.
Qed.

(** With the required options present, the verdict is that of the sink test. *)
Lemma PreRunE_sink options :
  Name options <> EmptyString -> Address options <> EmptyString ->
  SecretRef options <> EmptyString ->
  PreRunE options =
    if (SinkURI options =? EmptyString)
       && ((SinkAPIVersion options =? EmptyString) && (SinkKind options =? EmptyString)
           && (SinkName options =? EmptyString))
       || (negb ((SinkAPIVersion options =? EmptyString) && (SinkKind options =? EmptyString)
                 && (SinkName options =? EmptyString))
           && negb (nonempty (SinkAPIVersion options) && nonempty (SinkKind options)
                    && nonempty (SinkName options)))
    then Some sinkRequired else None.
Proof.
  intros N A S. unfold PreRunE.
  apply empty_false in N, A, S. now rewrite N, A, S.
Qed.

(** [PreRunE] only ever answers with one of its four messages. *)
Lemma PreRunE_Some options err :
  PreRunE options = Some err ->
  err = nameRequired \/ err = addressRequired \/ err = secretRefRequired \/
  err = sinkRequired.
Proof.
  unfold PreRunE. intros H.
  repeat match type of H with
    | (if ?b then _ else _) = _ => destruct b
    | (let _ := _ in _) = _ => cbv zeta in H
    end; try discriminate; injection H as <-; auto.
Qed.

Lemma execute_invalid url_Parse clients options err w :
  PreRunE options = Some err ->
  execute url_Parse clients options w = (w, Failed err).
Proof.
  intros H. unfold execute. now rewrite H.
Qed.

Lemma execute_valid url_Parse clients options w :
  PreRunE options = None ->
  execute url_Parse clients options w = RunE url_Parse clients options w.
Proof.
  intros H. unfold execute. now rewrite H.
Qed.

(** ** Running the command *)

Section Run.
Variable url_Parse : string -> result url.URL.
Variable clients : pkg.Clients.

(** [RunE], step by step. *)
Lemma RunE_steps options w :
  RunE url_Parse clients options w =
    match pkg.GetExplicitOrDefaultNamespace clients (Namespace options) with
    | Failed err => (w, Failed (fmt.Errorf "failed to get namespace: " err))
    | Ok namespace =>
      match url_Parse (Address options) with
      | Failed err => (w, Failed (fmt.Errorf "failed to parse source address: " err))
      | Ok address =>
        match AsSinkDestination url_Parse options namespace with
        | Failed err => (w, Failed (fmt.Errorf "failed to parse sink address: " err))
        | Ok sinkDestination =>
          let source := newSource namespace sinkDestination address options in
          let sent := (requests w ++ [(namespace, source)])%list in
          match pkg.VSphereClientSet clients namespace source with
          | Some err =>
              ({| requests := sent; stdout := stdout w |},
               Failed (fmt.Errorf "failed to create source: " err))
          | None =>
              ({| requests := sent;
                  stdout := fmt.Fprintln (stdout w) "Created source" |}, Ok tt)
          end
        end
      end
    end.
Proof.
  unfold RunE, bind, orfail, Create, Println.
  destruct (pkg.GetExplicitOrDefaultNamespace clients (Namespace options)) as [namespace|err];
    [|reflexivity].
  destruct (url_Parse (Address options)) as [address|err]; [|reflexivity].
  destruct (AsSinkDestination url_Parse options namespace) as [sinkDestination|err];
    [|reflexivity].
  cbv zeta.
  now destruct (pkg.VSphereClientSet clients namespace
                  (newSource namespace sinkDestination address options)).
Qed.


(** Every request [RunE] sends is for the resolved namespace, which is
    also the namespace of the source it carries. *)
Lemma RunE_request options w namespace :
  pkg.GetExplicitOrDefaultNamespace clients (Namespace options) = Ok namespace ->
  forall ns source,
    In (ns, source) (requests (fst (RunE url_Parse clients options w))) ->
    In (ns, source) (requests w) \/
    (ns = namespace /\
     metav1.Namespace (v1alpha1.ObjectMeta source) = namespace).
Proof.
  intros Resolved ns source. rewrite RunE_steps, Resolved.
  destruct (url_Parse (Address options)) as [address|err]; [|now auto].
  destruct (AsSinkDestination url_Parse options namespace) as [sinkDestination|err];
    [|now auto].
  cbv zeta.
  destruct (pkg.VSphereClientSet clients namespace
              (newSource namespace sinkDestination address options));
    simpl; rewrite in_app_iff; simpl;
    (intros [Old | [[= <- <-] | []]]; [now left | now right]).
Qed.
End Run.

(** ** The claims about the sink destination *)

(** C1, as amended.  For options that pass validation and whose sink
    destination is built, the destination has a URI exactly when [SinkURI]
    is non-empty and a reference exactly when the three coordinate fields
    are non-empty; the reference is made of the resolved namespace and the
    three fields; one of the two is always there; and with an empty
    [SinkURI] the destination is the reference alone. *)
Theorem valid_sink_destination url_Parse so namespace d :
  PreRunE so = None ->
  AsSinkDestination url_Parse so namespace = Ok d ->
  (duckv1.URI d <> None <-> SinkURI so <> EmptyString) /\
  (duckv1.Ref d <> None <->
   SinkAPIVersion so <> EmptyString /\ SinkKind so <> EmptyString /\
   SinkName so <> EmptyString) /\
  (forall ref, duckv1.Ref d = Some ref ->
     ref = {| duckv1.APIVersion := SinkAPIVersion so;
              duckv1.Kind := SinkKind so;
              duckv1.Namespace := namespace;
              duckv1.Name := SinkName so |}) /\
  (duckv1.URI d <> None \/ duckv1.Ref d <> None) /\
  (SinkURI so = EmptyString -> duckv1.URI d = None /\ duckv1.Ref d <> None).
Proof.
  intros Valid Built.
  apply PreRunE_None in Valid as (_ & _ & _ & Sink).
  apply AsSinkDestination_Ok in Built as [R U].
  assert (UriIff : duckv1.URI d <> None <-> SinkURI so <> EmptyString).
  { destruct (string_dec (SinkURI so) EmptyString) as [E|E].
    - rewrite (sinkURL_unset url_Parse so E) in U. injection U as <-. tauto.
    - rewrite (sinkURL_set url_Parse so E) in U.
      destruct (url_Parse (SinkURI so)); [|discriminate].
      injection U as <-. split; [tauto | discriminate]. }
  assert (RefIff : duckv1.Ref d <> None <->
                   SinkAPIVersion so <> EmptyString /\ SinkKind so <> EmptyString /\
                   SinkName so <> EmptyString).
  { rewrite R. destruct Sink as [(_ & V & _) | (V & K & M)].
    - rewrite (sinkReference_unset so namespace V). tauto.
    - rewrite (sinkReference_set so namespace V). repeat split; auto; discriminate. }
  split; [exact UriIff|]. split; [exact RefIff|]. split; [|split].
  - intros ref Given. rewrite R in Given.
    destruct (string_dec (SinkAPIVersion so) EmptyString) as [E|E].
    + now rewrite (sinkReference_unset so namespace E) in Given.
    + rewrite (sinkReference_set so namespace E) in Given. now injection Given as <-.
  - destruct Sink as [(S & _) | Coordinates]; tauto.
  - intros E. destruct Sink as [(S & _) | Coordinates]; [contradiction|].
    split; [|tauto].
    destruct (duckv1.URI d); [|reflexivity]. exfalso.
    apply (proj1 UriIff); [discriminate | exact E].
Qed.

Lemma valid_sink_destination_witness :
  let so := fake.options "http://sink" "v1" "Service" "svc" in
  PreRunE so = None /\
  exists d, AsSinkDestination fake.Parse so "ns" = Ok d /\
            duckv1.URI d <> None /\ duckv1.Ref d <> None.
Proof.
  intros so.
  pose (d := {| duckv1.Ref := sinkReference so "ns"; duckv1.URI := Some fake.sink |}).
  assert (Valid : PreRunE so = None) by reflexivity.
  assert (Built : AsSinkDestination fake.Parse so "ns" = Ok d) by reflexivity.
  destruct (valid_sink_destination fake.Parse so "ns" d Valid Built)
    as (U & R & _).
  split; [exact Valid|]. exists d. split; [exact Built|]. split.
  - apply U. discriminate.
  - apply R. repeat split; discriminate.
Defined.

(** C1, as stated, fails: [--sink-uri] together with the three coordinates
    passes validation, and the destination built is a URI and a reference
    at once. *)
Lemma sink_destination_both :
  let so := fake.options "http://sink" "v1" "Service" "svc" in
  PreRunE so = None /\
  AsSinkDestination fake.Parse so "ns" =
    Ok {| duckv1.Ref := Some {| duckv1.APIVersion := "v1"; duckv1.Kind := "Service";
                                duckv1.Namespace := "ns"; duckv1.Name := "svc" |};
          duckv1.URI := Some fake.sink |} /\
  ~ (forall url_Parse so namespace d,
       PreRunE so = None ->
       AsSinkDestination url_Parse so namespace = Ok d ->
       ~ (duckv1.URI d <> None /\ duckv1.Ref d <> None)).
Proof.
  intros so. split; [reflexivity|]. split; [reflexivity|].
  intros Never.
  apply (Never fake.Parse so "ns" _ eq_refl eq_refl).
  split; discriminate.
Qed.

(** C6.  With [v1], [Service], [svc], no [SinkURI] and the namespace [ns]
    the destination is the reference [{v1, Service, ns, svc}] and no URI. *)
Theorem reference_destination url_Parse so :
  SinkAPIVersion so = "v1" -> SinkKind so = "Service" -> SinkName so = "svc" ->
  SinkURI so = EmptyString ->
  AsSinkDestination url_Parse so "ns" =
    Ok {| duckv1.Ref := Some {| duckv1.APIVersion := "v1"; duckv1.Kind := "Service";
                                duckv1.Namespace := "ns"; duckv1.Name := "svc" |};
          duckv1.URI := None |}.
Proof.
  intros V K M U. unfold AsSinkDestination.
  rewrite (sinkURL_unset url_Parse so U).
  rewrite sinkReference_set by (rewrite V; discriminate).
  now rewrite V, K, M.
Qed.

Lemma reference_destination_witness :
  SinkURI (fake.options EmptyString "v1" "Service" "svc") = EmptyString /\
  AsSinkDestination fake.Parse (fake.options EmptyString "v1" "Service" "svc") "ns" =
    Ok {| duckv1.Ref := Some {| duckv1.APIVersion := "v1"; duckv1.Kind := "Service";
                                duckv1.Namespace := "ns"; duckv1.Name := "svc" |};
          duckv1.URI := None |}.
Proof.
  split; [reflexivity|].
  apply (reference_destination fake.Parse (fake.options EmptyString "v1" "Service" "svc"));
    reflexivity.
Defined.

(** C10.  [AsSinkDestination] returns a destination whose reference is
    [nil] exactly when [SinkAPIVersion] is empty, and otherwise holds
    [SinkKind] and [SinkName] as they are; it fails only when a non-empty
    [SinkURI] fails to parse, with the parser's error; and with an empty
    [SinkURI] it succeeds with no URI. *)
Theorem AsSinkDestination_cases url_Parse so namespace :
  (forall d, AsSinkDestination url_Parse so namespace = Ok d ->
     (duckv1.Ref d = None <-> SinkAPIVersion so = EmptyString) /\
     (SinkAPIVersion so <> EmptyString ->
      duckv1.Ref d = Some {| duckv1.APIVersion := SinkAPIVersion so;
                             duckv1.Kind := SinkKind so;
                             duckv1.Namespace := namespace;
                             duckv1.Name := SinkName so |})) /\
  (forall err, AsSinkDestination url_Parse so namespace = Failed err <->
     SinkURI so <> EmptyString /\ url_Parse (SinkURI so) = Failed err) /\
  (SinkURI so = EmptyString ->
   AsSinkDestination url_Parse so namespace =
     Ok {| duckv1.Ref := sinkReference so namespace; duckv1.URI := None |}).
Proof.
  split; [|split].
  - intros d Built. apply AsSinkDestination_Ok in Built as [R _]. rewrite R. split.
    + destruct (string_dec (SinkAPIVersion so) EmptyString) as [E|E].
      * rewrite (sinkReference_unset so namespace E). tauto.
      * rewrite (sinkReference_set so namespace E). split; [discriminate | tauto].
    + apply sinkReference_set.
  - intros err. unfold AsSinkDestination.
    destruct (string_dec (SinkURI so) EmptyString) as [E|E].
    + rewrite (sinkURL_unset url_Parse so E). split; [discriminate | tauto].
    + rewrite (sinkURL_set url_Parse so E).
      destruct (url_Parse (SinkURI so)) as [address|err'].
      * split; [discriminate | intros [_ [=]]].
      * split; [intros [= <-]; now split | now intros [_ [= <-]]].
  - intros E. unfold AsSinkDestination. now rewrite (sinkURL_unset url_Parse so E).
Qed.

Lemma AsSinkDestination_cases_witness :
  let so := fake.options ":sink" EmptyString "Service" "svc" in
  SinkURI so <> EmptyString /\
  AsSinkDestination fake.Parse so "ns" = Failed "missing protocol scheme".
Proof.
  intros so. split; [discriminate|].
  apply (proj1 (proj2 (AsSinkDestination_cases fake.Parse so "ns"))).
  split; [discriminate | reflexivity].
Defined.

(** ** The claims about validation *)

(** C2.  When [Name], [Address] or [SecretRef] is empty, execution fails
    with the message of the first of them that is empty, which opens with
    the name of that option; the world is left as it was, so no create
    call was made. *)
Theorem missing_required_option url_Parse clients options w :
  Name options = EmptyString \/ Address options = EmptyString \/
  SecretRef options = EmptyString ->
  exists err,
    execute url_Parse clients options w = (w, Failed err) /\
    ((Name options = EmptyString /\ err = nameRequired /\
      prefix "'name' requires" err = true) \/
     (Address options = EmptyString /\ err = addressRequired /\
      prefix "'address' requires" err = true) \/
     (SecretRef options = EmptyString /\ err = secretRefRequired /\
      prefix "'secret-ref' requires" err = true)).
Proof.
  intros Missing.
  destruct (PreRunE_required options Missing)
    as [(N & R) | [(_ & A & R) | (_ & _ & S & R)]];
    eexists; (split; [apply execute_invalid, R|]); auto 6.
Qed.

Lemma missing_required_option_witness :
  Name (fake.unnamed "http://sink" EmptyString EmptyString EmptyString) = EmptyString /\
  execute fake.Parse fake.accepting
          (fake.unnamed "http://sink" EmptyString EmptyString EmptyString) fake.idle
    = (fake.idle, Failed nameRequired).
Proof.
  split; [reflexivity|].
  destruct (missing_required_option fake.Parse fake.accepting
              (fake.unnamed "http://sink" EmptyString EmptyString EmptyString)
              fake.idle (or_introl eq_refl))
    as (err & Run & [(_ & E & _) | [(A & _) | (S & _)]]).
  - rewrite <- E. exact Run.
  - discriminate A.
  - discriminate S.
Defined.

(** The sink test of [PreRunE] fails when no URI and no coordinate is
    given, and when the coordinates are given in part. *)
Lemma sink_rejected options :
  Name options <> EmptyString -> Address options <> EmptyString ->
  SecretRef options <> EmptyString ->
  ~ (SinkAPIVersion options <> EmptyString /\ SinkKind options <> EmptyString /\
     SinkName options <> EmptyString) ->
  SinkURI options = EmptyString \/
  ~ (SinkAPIVersion options = EmptyString /\ SinkKind options = EmptyString /\
     SinkName options = EmptyString) ->
  PreRunE options = Some sinkRequired.
Proof.
  intros N A S NotAll Which. rewrite (PreRunE_sink options N A S).
  unfold nonempty. by_emptiness; simpl; try reflexivity; exfalso; tauto.
Qed.

Lemma sink_rejected_in_order options :
  ~ (SinkAPIVersion options <> EmptyString /\ SinkKind options <> EmptyString /\
     SinkName options <> EmptyString) ->
  SinkURI options = EmptyString \/
  ~ (SinkAPIVersion options = EmptyString /\ SinkKind options = EmptyString /\
     SinkName options = EmptyString) ->
  exists err, PreRunE options = Some err /\ rejected options err.
Proof.
  intros NotAll Which. unfold rejected.
  destruct (string_dec (Name options) EmptyString) as [N|N];
    [|destruct (string_dec (Address options) EmptyString) as [A|A];
      [|destruct (string_dec (SecretRef options) EmptyString) as [S|S]]].
  - destruct (PreRunE_required options (or_introl N)) as [(_ & R) | [(N' & _) | (N' & _)]];
      [|contradiction..].
    exists nameRequired. split; [exact R | intuition].
  - destruct (PreRunE_required options (or_intror (or_introl A)))
      as [(N' & _) | [(_ & _ & R) | (_ & A' & _)]]; [contradiction| |contradiction].
    exists addressRequired. split; [exact R | intuition].
  - destruct (PreRunE_required options (or_intror (or_intror S)))
      as [(N' & _) | [(_ & A' & _) | (_ & _ & _ & R)]]; [contradiction..|].
    exists secretRefRequired. split; [exact R | intuition].
  - exists sinkRequired. split; [now apply sink_rejected | intuition].
Qed.

(** C3, as amended.  With an empty [SinkURI] and the three coordinates
    empty or given in part, execution fails in validation and leaves the
    world as it was; the error is the one that describes the sink
    combination when [Name], [Address] and [SecretRef] are non-empty, and
    the one of the first empty of these otherwise. *)
Theorem sink_missing_or_partial url_Parse clients options w :
  SinkURI options = EmptyString ->
  ~ (SinkAPIVersion options <> EmptyString /\ SinkKind options <> EmptyString /\
     SinkName options <> EmptyString) ->
  exists err,
    execute url_Parse clients options w = (w, Failed err) /\
    rejected options err /\
    (Name options <> EmptyString -> Address options <> EmptyString ->
     SecretRef options <> EmptyString -> err = sinkRequired).
Proof.
  intros U NotAll.
  destruct (sink_rejected_in_order options NotAll (or_introl U)) as (err & R & Order).
  exists err. split; [now apply execute_invalid|]. split; [exact Order|].
  intros N A S. unfold rejected in Order. tauto.
Qed.

Lemma sink_missing_or_partial_witness :
  SinkURI (fake.options EmptyString "v1" EmptyString "svc") = EmptyString /\
  execute fake.Parse fake.accepting (fake.options EmptyString "v1" EmptyString "svc")
          fake.idle = (fake.idle, Failed sinkRequired).
Proof.
  split; [reflexivity|].
  assert (NotAll : ~ (SinkAPIVersion (fake.options EmptyString "v1" EmptyString "svc")
                        <> EmptyString /\
                      SinkKind (fake.options EmptyString "v1" EmptyString "svc")
                        <> EmptyString /\
                      SinkName (fake.options EmptyString "v1" EmptyString "svc")
                        <> EmptyString)).
  { intros (_ & K & _). now apply K. }
  destruct (sink_missing_or_partial fake.Parse fake.accepting
              (fake.options EmptyString "v1" EmptyString "svc") fake.idle eq_refl NotAll)
    as (err & Run & _ & Sink).
  rewrite <- Sink; [exact Run | discriminate..].
Defined.

(** C3, as stated, fails: without [--name] the error is the one about the
    name, which says nothing of the sink. *)
Lemma sink_missing_but_name_first :
  SinkURI (fake.unnamed EmptyString EmptyString EmptyString EmptyString) = EmptyString /\
  SinkAPIVersion (fake.unnamed EmptyString EmptyString EmptyString EmptyString) = EmptyString /\
  SinkKind (fake.unnamed EmptyString EmptyString EmptyString EmptyString) = EmptyString /\
  SinkName (fake.unnamed EmptyString EmptyString EmptyString EmptyString) = EmptyString /\
  execute fake.Parse fake.accepting
          (fake.unnamed EmptyString EmptyString EmptyString EmptyString) fake.idle
    = (fake.idle, Failed nameRequired) /\
  nameRequired <> sinkRequired.
Proof.
  repeat split; discriminate.
Qed.

(** C9, as amended.  A non-empty [SinkURI] does not excuse coordinates
    given in part: execution fails in validation and leaves the world as it
    was; the error is the one that describes the sink combination when
    [Name], [Address] and [SecretRef] are non-empty, and the one of the
    first empty of these otherwise. *)
Theorem sink_partial_despite_uri url_Parse clients options w :
  SinkURI options <> EmptyString ->
  ~ (SinkAPIVersion options = EmptyString /\ SinkKind options = EmptyString /\
     SinkName options = EmptyString) ->
  ~ (SinkAPIVersion options <> EmptyString /\ SinkKind options <> EmptyString /\
     SinkName options <> EmptyString) ->
  exists err,
    execute url_Parse clients options w = (w, Failed err) /\
    rejected options err /\
    (Name options <> EmptyString -> Address options <> EmptyString ->
     SecretRef options <> EmptyString -> err = sinkRequired).
Proof.
  intros _ NotNone NotAll.
  destruct (sink_rejected_in_order options NotAll (or_intror NotNone)) as (err & R & Order).
  exists err. split; [now apply execute_invalid|]. split; [exact Order|].
  intros N A S. unfold rejected in Order. tauto.
Qed.

Lemma sink_partial_despite_uri_witness :
  SinkURI (fake.options "http://sink" EmptyString "Service" EmptyString) <> EmptyString /\
  execute fake.Parse fake.accepting (fake.options "http://sink" EmptyString "Service" EmptyString)
          fake.idle = (fake.idle, Failed sinkRequired).
Proof.
  split; [discriminate|].
  assert (U : SinkURI (fake.options "http://sink" EmptyString "Service" EmptyString)
              <> EmptyString) by discriminate.
  assert (NotNone : ~ (SinkAPIVersion (fake.options "http://sink" EmptyString "Service" EmptyString)
                         = EmptyString /\
                       SinkKind (fake.options "http://sink" EmptyString "Service" EmptyString)
                         = EmptyString /\
                       SinkName (fake.options "http://sink" EmptyString "Service" EmptyString)
                         = EmptyString)).
  { intros (_ & K & _). discriminate K. }
  assert (NotAll : ~ (SinkAPIVersion (fake.options "http://sink" EmptyString "Service" EmptyString)
                        <> EmptyString /\
                      SinkKind (fake.options "http://sink" EmptyString "Service" EmptyString)
                        <> EmptyString /\
                      SinkName (fake.options "http://sink" EmptyString "Service" EmptyString)
                        <> EmptyString)).
  { intros (V & _). now apply V. }
  destruct (sink_partial_despite_uri fake.Parse fake.accepting
              (fake.options "http://sink" EmptyString "Service" EmptyString) fake.idle
              U NotNone NotAll)
    as (err & Run & _ & Sink).
  rewrite <- Sink; [exact Run | discriminate..].
Defined.

(** C9, as stated, fails: without [--name] the error is the one about the
    name, not the one about the sink. *)
Lemma sink_partial_but_name_first :
  SinkURI (fake.unnamed "http://sink" EmptyString "Service" EmptyString) <> EmptyString /\
  SinkKind (fake.unnamed "http://sink" EmptyString "Service" EmptyString) <> EmptyString /\
  SinkName (fake.unnamed "http://sink" EmptyString "Service" EmptyString) = EmptyString /\
  execute fake.Parse fake.accepting
          (fake.unnamed "http://sink" EmptyString "Service" EmptyString) fake.idle
    = (fake.idle, Failed nameRequired) /\
  nameRequired <> sinkRequired.
Proof.
  repeat split; discriminate.
Qed.

(** ** The claims about the run *)

(** C5.  With [name=s], [address=https://vc.local], [secretRef=cred],
    [sinkURI=http://sink], both URLs parsing, the namespace resolving and a
    client that accepts the source, execution sends exactly one create
    request, for a source whose [Address] is the parsed address and whose
    [SecretRef.Name] is [cred], prints [Created source] and changes
    nothing else. *)
Theorem create_minimal_source url_Parse clients w
    (ns : string) (skip : bool) (age period : time.Duration)
    (address sink : url.URL) (namespace : string) :
  let options :=
    {| Namespace := ns; Name := "s"; Address := "https://vc.local";
       SkipTLSVerify := skip; SecretRef := "cred"; SinkURI := "http://sink";
       SinkAPIVersion := EmptyString; SinkKind := EmptyString;
       SinkName := EmptyString;
       CheckpointMaxAge := age; CheckpointPeriod := period |} in
  url_Parse "https://vc.local" = Ok address ->
  url_Parse "http://sink" = Ok sink ->
  pkg.GetExplicitOrDefaultNamespace clients ns = Ok namespace ->
  (forall n source, pkg.VSphereClientSet clients n source = None) ->
  exists source,
    execute url_Parse clients options w =
      ({| requests := requests w ++ [(namespace, source)];
          stdout := stdout w ++ "Created source" ++ LF |}, Ok tt) /\
    v1alpha1.Address (v1alpha1.VAuthSpec_ (v1alpha1.Spec source)) = address /\
    corev1.Name (v1alpha1.SecretRef (v1alpha1.VAuthSpec_ (v1alpha1.Spec source))) = "cred" /\
    duckv1.Sink (v1alpha1.SourceSpec (v1alpha1.Spec source)) =
      {| duckv1.Ref := None; duckv1.URI := Some sink |} /\
    v1alpha1.ObjectMeta source = {| metav1.Namespace := namespace; metav1.Name := "s" |}.
Proof.
  intros options ParsedAddress ParsedSink Resolved Accepts.
  exists (newSource namespace {| duckv1.Ref := None; duckv1.URI := Some sink |}
                    address options).
  split; [|now repeat split].
  rewrite execute_valid by reflexivity.
  rewrite RunE_steps. cbn [Namespace Address options].
  rewrite Resolved, ParsedAddress.
  unfold AsSinkDestination, sinkURL, sinkReference.
  cbn [SinkURI SinkAPIVersion options String.eqb Ascii.eqb Bool.eqb].
  rewrite ParsedSink. cbv zeta. now rewrite Accepts.
Qed.

Lemma create_minimal_source_witness :
  fake.Parse "https://vc.local" = Ok fake.vcLocal /\
  exists source,
    execute fake.Parse fake.accepting
            (fake.options "http://sink" EmptyString EmptyString EmptyString) fake.idle =
      ({| requests := [("default", source)];
          stdout := "Created source" ++ LF |}, Ok tt) /\
    v1alpha1.Address (v1alpha1.VAuthSpec_ (v1alpha1.Spec source)) = fake.vcLocal.
Proof.
  split; [reflexivity|].
  destruct (create_minimal_source fake.Parse fake.accepting fake.idle
              EmptyString false
              (90 * time.Second + 500 * time.Millisecond)%Z (10 * time.Second)%Z
              fake.vcLocal fake.sink "default"
              eq_refl eq_refl eq_refl (fun _ _ => eq_refl))
    as (source & Run & A & _).
  exists source. split; [exact Run | exact A].
Defined.


(** C8.  The namespace is the [Namespace] option when that is non-empty
    and the client configuration's answer when it is empty.  When it
    cannot be resolved, a validated execution stops there: the world is
    left as it was and the error is [failed to get namespace: ] followed
    by the cause, whatever the parser and the client would have done.
    When it is resolved, every request the execution sends is for that
    namespace and carries a source in that namespace; an execution either
    sends nothing and fails, or sends exactly one request, for the
    resolved namespace and with a source whose metadata names that
    namespace, so that a successful execution has sent such a request;
    and once the options are valid, the address parses and the sink
    destination is built for the resolved namespace, that request is
    sent, whatever the client answers. *)
Theorem effective_namespace url_Parse clients options w :
  (Namespace options <> EmptyString ->
   pkg.GetExplicitOrDefaultNamespace clients (Namespace options) = Ok (Namespace options)) /\
  (Namespace options = EmptyString ->
   pkg.GetExplicitOrDefaultNamespace clients (Namespace options) = pkg.ClientConfig clients) /\
  (forall cause,
     PreRunE options = None ->
     pkg.GetExplicitOrDefaultNamespace clients (Namespace options) = Failed cause ->
     execute url_Parse clients options w =
       (w, Failed ("failed to get namespace: " ++ cause))) /\
  (forall namespace,
     pkg.GetExplicitOrDefaultNamespace clients (Namespace options) = Ok namespace ->
     forall ns source,
       In (ns, source) (requests (fst (execute url_Parse clients options w))) ->
       In (ns, source) (requests w) \/
       (ns = namespace /\
        metav1.Namespace (v1alpha1.ObjectMeta source) = namespace)) /\
  (forall namespace,
     pkg.GetExplicitOrDefaultNamespace clients (Namespace options) = Ok namespace ->
     (requests (fst (execute url_Parse clients options w)) = requests w /\
      exists err, snd (execute url_Parse clients options w) = Failed err) \/
     (exists source,
        requests (fst (execute url_Parse clients options w)) =
          (requests w ++ [(namespace, source)])%list /\
        metav1.Namespace (v1alpha1.ObjectMeta source) = namespace)) /\
  (forall namespace address d,
     pkg.GetExplicitOrDefaultNamespace clients (Namespace options) = Ok namespace ->
     PreRunE options = None ->
     url_Parse (Address options) = Ok address ->
     AsSinkDestination url_Parse options namespace = Ok d ->
     requests (fst (execute url_Parse clients options w)) =
       (requests w ++ [(namespace, newSource namespace d address options)])%list /\
     metav1.Namespace (v1alpha1.ObjectMeta (newSource namespace d address options))
       = namespace).
Proof.
  split; [|split; [|split; [|split; [|split]]]].
  - unfold pkg.GetExplicitOrDefaultNamespace.
    intros E. apply empty_false in E. now rewrite E.
  - unfold pkg.GetExplicitOrDefaultNamespace. intros E. now rewrite E.
  - intros cause Valid Unresolved. rewrite execute_valid by exact Valid.
    now rewrite RunE_steps, Unresolved.
  - intros namespace Resolved ns source. unfold execute.
    destruct (PreRunE options); [now left|].
    now apply RunE_request.
  - intros namespace Resolved. unfold execute.
    destruct (PreRunE options) as [err|]; [left; split; [reflexivity | now exists err]|].
    rewrite RunE_steps, Resolved.
    destruct (url_Parse (Address options)) as [address|cause];
      [|left; split; [reflexivity | now eexists]].
    destruct (AsSinkDestination url_Parse options namespace) as [d|cause];
      [|left; split; [reflexivity | now eexists]].
    cbv zeta. right. exists (newSource namespace d address options).
    now destruct (pkg.VSphereClientSet clients namespace
                    (newSource namespace d address options)).
  - intros namespace address d Resolved Valid Parsed Built.
    rewrite execute_valid, RunE_steps, Resolved, Parsed, Built by exact Valid.
    cbv zeta. split; [|reflexivity].
    now destruct (pkg.VSphereClientSet clients namespace
                    (newSource namespace d address options)).
Qed.

Lemma effective_namespace_witness :
  execute fake.Parse fake.refusing
          (fake.options "http://sink" EmptyString EmptyString EmptyString) fake.idle =
    (fake.idle, Failed "failed to get namespace: no context") /\
  (snd (execute fake.Parse fake.accepting
          (fake.options "http://sink" EmptyString EmptyString EmptyString) fake.idle)
     = Ok tt /\
   requests (fst (execute fake.Parse fake.accepting
                    (fake.options "http://sink" EmptyString EmptyString EmptyString)
                    fake.idle)) =
     [("default",
       newSource "default" {| duckv1.Ref := None; duckv1.URI := Some fake.sink |}
                 fake.vcLocal
                 (fake.options "http://sink" EmptyString EmptyString EmptyString))]) /\
  requests (fst (execute fake.Parse sample.strict sample.referring fake.idle)) =
    [("ns",
      newSource "ns"
                {| duckv1.Ref := sinkReference sample.referring "ns"; duckv1.URI := None |}
                fake.vcLocal sample.referring)].
Proof.
  split; [|split; [split; [reflexivity|]|]].
  - exact (proj1 (proj2 (proj2
             (effective_namespace fake.Parse fake.refusing
                (fake.options "http://sink" EmptyString EmptyString EmptyString) fake.idle)))
           "no context" eq_refl eq_refl).
  - exact (proj1 (proj2 (proj2 (proj2 (proj2 (proj2
             (effective_namespace fake.Parse fake.accepting
                (fake.options "http://sink" EmptyString EmptyString EmptyString)
                fake.idle)))))
             "default" fake.vcLocal
             {| duckv1.Ref := None; duckv1.URI := Some fake.sink |}
             eq_refl eq_refl eq_refl eq_refl)).
  - exact (proj1 (proj2 (proj2 (proj2 (proj2 (proj2
             (effective_namespace fake.Parse sample.strict sample.referring fake.idle)))))
             "ns" fake.vcLocal
             {| duckv1.Ref := sinkReference sample.referring "ns"; duckv1.URI := None |}
             eq_refl eq_refl eq_refl eq_refl)).
Defined.

(** ** float64 *)

Module float64_facts.
Import float64.
Local Open Scope Q_scope.

Lemma pow2_pos k : 0 < 2 ^ k.
Proof. apply Qpower_0_lt. reflexivity. Qed.

Lemma pow2_le k k' : (k <= k')%Z -> 2 ^ k <= 2 ^ k'.
Proof. intros H. apply Qpower_le_compat_l; [exact H | discriminate]. Qed.

Lemma pow2_lt_inv k k' : 2 ^ k < 2 ^ k' -> (k < k')%Z.
Proof. intros H. apply Qpower_lt_compat_l_inv in H; [exact H | reflexivity]. Qed.

Lemma pow2_succ k : 2 ^ (k + 1) == 2 * 2 ^ k.
Proof. rewrite Qpower_plus by discriminate. change (2 ^ 1) with 2. ring. Qed.


Lemma ilog2_le x : ~ x == 0 -> 2 ^ ilog2 x <= Qabs x.
Proof.
  intros NZ. unfold ilog2.
  set (a := Z.abs (Qnum x)). set (d := Z.pos (Qden x)).
  destruct (Qle_bool (2 ^ (Z.log2 a - Z.log2 d)) (Qabs x)) eqn:T.
  - now apply Qle_bool_iff.
  - assert (Pa : (0 < a)%Z).
    { destruct x as [n den]. unfold a. simpl.
      assert (n <> 0)%Z; [|lia].
      intros ->. apply NZ. reflexivity. }
    assert (Pd : (0 < d)%Z) by (unfold d; lia).
    destruct (Z.log2_spec a Pa) as [La _].
    destruct (Z.log2_spec d Pd) as [_ Ld].
    pose proof (Z.log2_nonneg a) as Na. pose proof (Z.log2_nonneg d) as Nd.
    replace (Z.log2 a - Z.log2 d - 1)%Z with (Z.log2 a - Z.succ (Z.log2 d))%Z by lia.
    rewrite Qpower_minus by discriminate.
    rewrite <- !(Zpower_Qpower 2) by lia.
    assert (E : Qabs x == inject_Z a / inject_Z d).
    { destruct x as [n den]. unfold a, d. simpl. apply Qmake_Qdiv. }
    rewrite E.
    rewrite Zle_Qle in La. rewrite Zlt_Qlt in Ld. 
    rewrite Zlt_Qlt in Pa, Pd. change (inject_Z 0) with 0 in Pa, Pd.
    set (qA := inject_Z (2 ^ Z.log2 a)) in *.
    set (qB := inject_Z (2 ^ Z.succ (Z.log2 d))) in *.
    set (qa := inject_Z a) in *. set (qd := inject_Z d) in *.
    assert (PA : 0 < qA).
    { unfold qA. change 0 with (inject_Z 0). rewrite <- Zlt_Qlt. apply Z.pow_pos_nonneg; lia. }
    assert (PB : 0 < qB) by lra.
    apply Qle_shift_div_l; [exact Pd|].
    assert (Ht : qA / qB * qB == qA) by (field; lra).
    assert (T0 : 0 <= qA / qB) by (apply Qle_shift_div_l; lra).
    set (t := qA / qB) in *. nra.
Qed.

(** A number below [2^E] in magnitude has its logarithm below [E]. *)
Lemma ilog2_lt x E : ~ x == 0 -> Qabs x < 2 ^ E -> (ilog2 x < E)%Z.
Proof.
  intros NZ B. apply pow2_lt_inv.
  apply Qle_lt_trans with (Qabs x); [now apply ilog2_le | exact B].
Qed.

Lemma rne_floor y :
  (rne y = Qfloor y /\ y - inject_Z (Qfloor y) <= 1 # 2) \/
  (rne y = (Qfloor y + 1)%Z /\ 1 # 2 <= y - inject_Z (Qfloor y)).
Proof.
  unfold rne.
  destruct (Qcompare_spec (y - inject_Z (Qfloor y)) (1 # 2)) as [E|L|G].
  - destruct (Z.even (Qfloor y)); [left | right]; split; try reflexivity; lra.
  - left. split; [reflexivity | lra].
  - right. split; [reflexivity | lra].
Qed.

(** Rounding to the nearest integer moves by at most a half. *)
Lemma rne_error y : Qabs (inject_Z (rne y) - y) <= 1 # 2.
Proof.
  pose proof (Qfloor_le y) as Lo. pose proof (Qlt_floor y) as Hi.
  rewrite inject_Z_plus in Hi. change (inject_Z 1) with 1 in Hi.
  apply Qabs_Qle_condition.
  destruct (rne_floor y) as [[-> F] | [-> F]].
  - lra.
  - rewrite inject_Z_plus. change (inject_Z 1) with 1. lra.
Qed.

(** Rounding to the nearest integer does not cross an integer. *)
Lemma rne_ge y N : inject_Z N <= y -> (N <= rne y)%Z.
Proof.
  intros H. apply Qfloor_resp_le in H. rewrite Qfloor_Z in H.
  destruct (rne_floor y) as [[-> _] | [-> _]]; lia.
Qed.

Lemma rne_le y N : y <= inject_Z N -> (rne y <= N)%Z.
Proof.
  intros H. pose proof (Qfloor_le y) as Lo.
  destruct (rne_floor y) as [[-> _] | [-> F]].
  - rewrite Zle_Qle. lra.
  - assert (L : inject_Z (Qfloor y) < inject_Z N) by lra.
    rewrite <- Zlt_Qlt in L. lia.
Qed.

(** Rounding to a multiple of [2^k] moves by at most half of [2^k]. *)
Lemma round_to_error k x : Qabs (round_to k x - x) <= (1 # 2) * 2 ^ k.
Proof.
  unfold round_to. pose proof (pow2_pos k) as P.
  pose proof (rne_error (x / 2 ^ k)) as R. apply Qabs_Qle_condition in R.
  assert (E : x / 2 ^ k * 2 ^ k == x) by (field; lra).
  apply Qabs_Qle_condition.
  set (y := x / 2 ^ k) in *. set (r := inject_Z (rne y)) in *. set (p := 2 ^ k) in *.
  nra.
Qed.

(** It does not cross a multiple of [2^k]. *)
Lemma round_to_ge k x N : inject_Z N * 2 ^ k <= x -> inject_Z N * 2 ^ k <= round_to k x.
Proof.
  intros H. unfold round_to. pose proof (pow2_pos k) as P.
  apply Qmult_le_compat_r; [|lra].
  rewrite <- Zle_Qle. apply rne_ge. now apply Qle_shift_div_l.
Qed.

Lemma round_to_le k x N : x <= inject_Z N * 2 ^ k -> round_to k x <= inject_Z N * 2 ^ k.
Proof.
  intros H. unfold round_to. pose proof (pow2_pos k) as P.
  apply Qmult_le_compat_r; [|lra].
  rewrite <- Zle_Qle. apply rne_le. now apply Qle_shift_div_r.
Qed.

(** An integer is a multiple of [2^k] when [k <= 0]. *)
Lemma int_multiple k z : (k <= 0)%Z -> inject_Z z == inject_Z (z * 2 ^ (- k)) * 2 ^ k.
Proof.
  intros K. rewrite inject_Z_mult, Zpower_Qpower by lia.
  change (inject_Z 2) with 2. rewrite Qpower_opp.
  pose proof (pow2_pos k) as P. field. lra.
Qed.

Lemma round_zero x : x == 0 -> round x = 0.
Proof.
  intros E. unfold round. apply Qeq_bool_iff in E. now rewrite E.
Qed.

Lemma round_nonzero x : ~ x == 0 -> round x = round_to (ilog2 x - 52) x.
Proof.
  intros NZ. unfold round. destruct (Qeq_bool x 0) eqn:E; [|reflexivity].
  apply Qeq_bool_iff in E. contradiction.
Qed.

(** The result is within half a unit in the last place. *)
Lemma round_error x E : Qabs x < 2 ^ E -> Qabs (round x - x) <= 2 ^ (E - 54).
Proof.
  intros B. pose proof (pow2_pos (E - 54)) as P.
  destruct (Qeq_dec x 0) as [Z|NZ].
  - rewrite (round_zero x Z). apply Qabs_Qle_condition. lra.
  - rewrite (round_nonzero x NZ).
    pose proof (ilog2_lt x E NZ B) as L.
    eapply Qle_trans; [apply round_to_error|].
    apply Qle_trans with ((1 # 2) * 2 ^ (E - 53)).
    + apply Qmult_le_l; [reflexivity|]. apply pow2_le. lia.
    + replace (E - 53)%Z with (E - 54 + 1)%Z by lia. rewrite pow2_succ. lra.
Qed.

(** Below [2^53] in magnitude, rounding does not cross an integer. *)
Lemma round_ge_int x z : Qabs x < 2 ^ 53 -> inject_Z z <= x -> inject_Z z <= round x.
Proof.
  intros B H. destruct (Qeq_dec x 0) as [Z|NZ].
  - rewrite (round_zero x Z). lra.
  - rewrite (round_nonzero x NZ).
    pose proof (ilog2_lt x 53 NZ B) as L.
    rewrite (int_multiple (ilog2 x - 52) z) in * by lia.
    now apply round_to_ge.
Qed.

Lemma round_le_int x z : Qabs x < 2 ^ 53 -> x <= inject_Z z -> round x <= inject_Z z.
Proof.
  intros B H. destruct (Qeq_dec x 0) as [Z|NZ].
  - rewrite (round_zero x Z). lra.
  - rewrite (round_nonzero x NZ).
    pose proof (ilog2_lt x 53 NZ B) as L.
    rewrite (int_multiple (ilog2 x - 52) z) in * by lia.
    now apply round_to_le.
Qed.

(** An integer below [2^53] in magnitude is a [float64]. *)
Lemma of_int_exact z : (Z.abs z < 2 ^ 53)%Z -> of_int z == inject_Z z.
Proof.
  intros B. unfold of_int.
  assert (Q : Qabs (inject_Z z) < 2 ^ 53).
  { change (2 ^ 53) with (inject_Z (2 ^ 53)).
    change (Qabs (inject_Z z)) with (inject_Z (Z.abs z)). now rewrite <- Zlt_Qlt. }
  apply Qle_antisym.
  - apply round_le_int; [exact Q | lra].
  - apply round_ge_int; [exact Q | lra].
Qed.

(** [int64] of a number in [[s, s+1)] with [0 <= s], and in [(s-1, s]] with
    [s <= 0], is [s]. *)
Lemma to_int64_nonneg r s :
  (0 <= s)%Z -> inject_Z s <= r -> r < inject_Z s + 1 -> to_int64 r = s.
Proof.
  destruct r as [n d]. unfold to_int64, Qle, Qlt. simpl. intros S Lo Hi.
  rewrite Z.quot_div_nonneg by nia.
  symmetry. apply Z.div_unique with (n - s * Z.pos d)%Z; nia.
Qed.

Lemma to_int64_nonpos r s :
  (s <= 0)%Z -> inject_Z s - 1 < r -> r <= inject_Z s -> to_int64 r = s.
Proof.
  destruct r as [n d]. unfold to_int64, Qle, Qlt. simpl. intros S Lo Hi.
  rewrite <- (Z.opp_involutive n), Z.quot_opp_l by lia.
  rewrite Z.quot_div_nonneg by nia.
  assert (E : (- n / Z.pos d = - s)%Z); [|lia].
  symmetry. apply Z.div_unique with (- n + s * Z.pos d)%Z; nia.
Qed.

Lemma Qabs_lt x b : - b < x -> x < b -> Qabs x < b.
Proof. intros. apply Qabs_Qlt_condition. now split. Qed.

Section SecondsParts.
Variables sec nsec : Z.
Hypothesis sec_small : (Z.abs sec < 2 ^ 24)%Z.
Hypothesis nsec_small : (Z.abs nsec < 1000000000)%Z.

(** [float64(nsec)/1e9], and [float64(sec)] plus that. *)
Local Notation "'fraction'" := (div (of_int nsec) (of_int 1000000000)).
Local Notation "'sum'" := (add (of_int sec) (div (of_int nsec) (of_int 1000000000))).

Lemma of_int_sec : of_int sec == inject_Z sec.
Proof. apply of_int_exact. lia. Qed.

Lemma of_int_nsec : of_int nsec == inject_Z nsec.
Proof. apply of_int_exact. lia. Qed.

Lemma quotient : of_int nsec / of_int 1000000000 == inject_Z nsec * (1 # 1000000000).
Proof.
  rewrite of_int_nsec, (of_int_exact 1000000000) by (simpl; lia). reflexivity.
Qed.

Lemma sec_bounds : - (16777215) <= inject_Z sec <= 16777215.
Proof.
  change 16777215 with (inject_Z 16777215).
  change (- inject_Z 16777215) with (inject_Z (-16777215)).
  rewrite <- !Zle_Qle. lia.
Qed.

Lemma nsec_bounds : - (999999999) <= inject_Z nsec <= 999999999.
Proof.
  change 999999999 with (inject_Z 999999999).
  change (- inject_Z 999999999) with (inject_Z (-999999999)).
  rewrite <- !Zle_Qle. lia.
Qed.

Lemma fraction_error :
  Qabs (fraction - inject_Z nsec * (1 # 1000000000)) <= 2 ^ (-54).
Proof.
  unfold div. rewrite <- quotient.
  apply (round_error _ 0). rewrite quotient.
  pose proof nsec_bounds. apply Qabs_lt; change (2 ^ 0) with 1; lra.
Qed.

Lemma sum_error : Qabs (sum - (inject_Z sec + fraction)) <= 2 ^ (-30).
Proof.
  unfold add. rewrite <- of_int_sec.
  apply (round_error _ 24). rewrite of_int_sec.
  pose proof sec_bounds. pose proof nsec_bounds.
  pose proof fraction_error as F. apply Qabs_Qle_condition in F.
  change (2 ^ (-54)) with (1 # 18014398509481984) in F.
  apply Qabs_lt; change (2 ^ 24) with 16777216; lra.
Qed.

Lemma sum_nonneg :
  (0 <= sec)%Z -> (0 <= nsec)%Z -> inject_Z sec <= sum /\ sum < inject_Z sec + 1.
Proof.
  intros S N. rewrite Zle_Qle in S, N. change (inject_Z 0) with 0 in S, N.
  pose proof sec_bounds. pose proof nsec_bounds.
  pose proof fraction_error as F. apply Qabs_Qle_condition in F.
  change (2 ^ (-54)) with (1 # 18014398509481984) in F.
  pose proof sum_error as A. apply Qabs_Qle_condition in A.
  change (2 ^ (-30)) with (1 # 1073741824) in A.
  assert (F0 : 0 <= fraction).
  { unfold div. apply (round_ge_int _ 0).
    - rewrite quotient. apply Qabs_lt; change (2 ^ 53) with 9007199254740992; lra.
    - rewrite quotient. change (inject_Z 0) with 0. lra. }
  split; [|lra].
  unfold add. apply round_ge_int.
  - rewrite of_int_sec. apply Qabs_lt; change (2 ^ 53) with 9007199254740992; lra.
  - rewrite of_int_sec. lra.
Qed.

Lemma sum_nonpos :
  (sec <= 0)%Z -> (nsec <= 0)%Z -> inject_Z sec - 1 < sum /\ sum <= inject_Z sec.
Proof.
  intros S N. rewrite Zle_Qle in S, N. change (inject_Z 0) with 0 in S, N.
  pose proof sec_bounds. pose proof nsec_bounds.
  pose proof fraction_error as F. apply Qabs_Qle_condition in F.
  change (2 ^ (-54)) with (1 # 18014398509481984) in F.
  pose proof sum_error as A. apply Qabs_Qle_condition in A.
  change (2 ^ (-30)) with (1 # 1073741824) in A.
  assert (F0 : fraction <= 0).
  { unfold div. apply (round_le_int _ 0).
    - rewrite quotient. apply Qabs_lt; change (2 ^ 53) with 9007199254740992; lra.
    - rewrite quotient. change (inject_Z 0) with 0. lra. }
  split; [lra|].
  unfold add. apply round_le_int.
  - rewrite of_int_sec. apply Qabs_lt; change (2 ^ 53) with 9007199254740992; lra.
  - rewrite of_int_sec. lra.
Qed.

(** Whole seconds and a fraction of the same sign add up to a [float64]
    whose integer part is the whole seconds. *)
Lemma to_int64_sum :
  (0 <= sec /\ 0 <= nsec)%Z \/ (sec <= 0 /\ nsec <= 0)%Z ->
  to_int64 (add (of_int sec) (div (of_int nsec) (of_int 1000000000))) = sec.
Proof.
  intros [[S N] | [S N]].
  - destruct (sum_nonneg S N). now apply to_int64_nonneg.
  - destruct (sum_nonpos S N). now apply to_int64_nonpos.
Qed.
End SecondsParts.
End float64_facts.

(** ** The claim about the checkpoint seconds *)

(** Below [2^24] seconds in magnitude, [int64(d.Seconds())] is the whole
    seconds of [d], the fraction dropped. *)
Lemma Seconds_truncated (d : time.Duration) :
  (Z.abs d < 2 ^ 24 * time.Second)%Z ->
  float64.to_int64 (time.Seconds d) = Z.quot d time.Second.
Proof.
  intros Small. unfold time.Seconds, time.Second in *.
  apply float64_facts.to_int64_sum.
  - rewrite <- Z.quot_abs by lia. apply Z.quot_lt_upper_bound; lia.
  - apply (Z.rem_bound_abs d 1000000000). lia.
  - destruct (Z.le_ge_cases 0 d) as [P|N].
    + left. split; [apply Z.quot_pos | apply Z.rem_nonneg]; lia.
    + right. split.
      * rewrite <- (Z.opp_involutive d), Z.quot_opp_l by lia.
        assert (0 <= Z.quot (- d) 1000000000)%Z by (apply Z.quot_pos; lia). lia.
      * apply Z.rem_nonpos; lia.
Qed.

(** The rational model and the Standard Library's IEEE 754 model give the
    same [float64] for the durations used below and at the ends of the
    [int64] range. *)
Example Seconds_as_ieee :
  forallb (fun d => Qeq_bool (ieee.to_Q (ieee.Seconds d)) (time.Seconds d))
    [90500000000; 16777215999999999; 16777216999999999; -16777216999999999;
     1; -1; 0; 999999999; 1000000000; 9223372036854775807; -9223372036854775808]%Z
  = true.
Proof. vm_compute. reflexivity. Qed.

(** C4, as amended.  [newSource] stores [int64(d.Seconds())] for the two
    checkpoint durations; for durations below [2^24] seconds in magnitude
    that is the duration in whole seconds, truncated toward zero, so that
    90 seconds and 500 milliseconds are stored as 90. *)
Theorem checkpoint_seconds namespace sinkDestination address options :
  (Z.abs (CheckpointMaxAge options) < 2 ^ 24 * time.Second)%Z ->
  (Z.abs (CheckpointPeriod options) < 2 ^ 24 * time.Second)%Z ->
  let config :=
    v1alpha1.CheckpointConfig
      (v1alpha1.Spec (newSource namespace sinkDestination address options)) in
  v1alpha1.MaxAgeSeconds config = Z.quot (CheckpointMaxAge options) time.Second /\
  v1alpha1.PeriodSeconds config = Z.quot (CheckpointPeriod options) time.Second.
Proof.
  intros Age Period. cbn.
  split; now apply Seconds_truncated.
Qed.

Lemma checkpoint_seconds_witness :
  CheckpointMaxAge (fake.options "http://sink" EmptyString EmptyString EmptyString)
    = (90 * time.Second + 500 * time.Millisecond)%Z /\
  v1alpha1.MaxAgeSeconds
    (v1alpha1.CheckpointConfig
       (v1alpha1.Spec
          (newSource "ns" fake.toSink fake.vcLocal
             (fake.options "http://sink" EmptyString EmptyString EmptyString)))) = 90%Z.
Proof.
  split; [reflexivity|].
  exact (proj1 (checkpoint_seconds "ns" fake.toSink fake.vcLocal
                  (fake.options "http://sink" EmptyString EmptyString EmptyString)
                  eq_refl eq_refl)).
Defined.

(** C4, as stated, fails: [2^24] seconds and 999999999 nanoseconds are
    stored as [2^24 + 1] seconds, because the [float64] sum in [Seconds]
    rounds up to the next whole number; the Standard Library's IEEE 754
    model gives the same sum. *)
Lemma checkpoint_seconds_rounded_up :
  CheckpointMaxAge fake.longLived = 16777216999999999%Z /\
  Z.quot (CheckpointMaxAge fake.longLived) time.Second = 16777216%Z /\
  v1alpha1.MaxAgeSeconds
    (v1alpha1.CheckpointConfig
       (v1alpha1.Spec (newSource "ns" fake.toSink fake.vcLocal fake.longLived)))
    = 16777217%Z /\
  (ieee.to_Q (ieee.Seconds (CheckpointMaxAge fake.longLived)) == 16777217)%Q.
Proof.
  repeat split; vm_compute; reflexivity.
Qed.

(** * Further properties *)

(** ** float64 over the whole range of [time.Duration] *)

Module float64_range.
Import float64 float64_facts.
Local Open Scope Q_scope.

(** [int64] of a number between [s] and [s+1], for [0 <= s], is one of the
    two; mirrored for [s <= 0]. *)
Lemma to_int64_upward r s :
  (0 <= s)%Z -> inject_Z s <= r -> r <= inject_Z s + 1 ->
  (s <= to_int64 r <= s + 1)%Z.
Proof.
  destruct r as [n d]. unfold to_int64, Qle. simpl. intros S Lo Hi.
  rewrite Z.quot_div_nonneg by nia. split.
  - apply Z.div_le_lower_bound; nia.
  - apply Z.div_le_upper_bound; nia.
Qed.

Lemma to_int64_downward r s :
  (s <= 0)%Z -> inject_Z s - 1 <= r -> r <= inject_Z s ->
  (s - 1 <= to_int64 r <= s)%Z.
Proof.
  destruct r as [n d]. unfold to_int64, Qle. simpl. intros S Lo Hi.
  rewrite <- (Z.opp_involutive n), Z.quot_opp_l by lia.
  rewrite Z.quot_div_nonneg by nia.
  assert (- s <= - n / Z.pos d <= - s + 1)%Z; [|lia]. split.
  - apply Z.div_le_lower_bound; nia.
  - apply Z.div_le_upper_bound; nia.
Qed.

Lemma int_small z b : (Z.abs z < b)%Z -> - inject_Z b < inject_Z z < inject_Z b.
Proof.
  intros B. rewrite <- inject_Z_opp, <- !Zlt_Qlt. lia.
Qed.

Lemma whole sec : (Z.abs sec < 2 ^ 34)%Z -> of_int sec == inject_Z sec.
Proof. intros B. apply of_int_exact. lia. Qed.

Lemma part nsec :
  (Z.abs nsec < 1000000000)%Z ->
  of_int nsec / of_int 1000000000 == inject_Z nsec * (1 # 1000000000).
Proof.
  intros B.
  rewrite (of_int_exact nsec), (of_int_exact 1000000000) by (simpl; lia). reflexivity.
Qed.

(** The fraction keeps the sign of the nanoseconds and stays within one. *)
Lemma fraction_nonneg nsec :
  (Z.abs nsec < 1000000000)%Z -> (0 <= nsec)%Z ->
  0 <= div (of_int nsec) (of_int 1000000000) <= 1.
Proof.
  intros B N. rewrite Zle_Qle in N. change (inject_Z 0) with 0 in N.
  pose proof (int_small nsec 1000000000 B) as Bq.
  change (inject_Z 1000000000) with 1000000000 in Bq.
  pose proof (part nsec B) as P. unfold div. split.
  - apply (round_ge_int _ 0).
    + rewrite P. apply Qabs_lt; change (2 ^ 53) with 9007199254740992; lra.
    + rewrite P. change (inject_Z 0) with 0. lra.
  - apply (round_le_int _ 1).
    + rewrite P. apply Qabs_lt; change (2 ^ 53) with 9007199254740992; lra.
    + rewrite P. change (inject_Z 1) with 1. lra.
Qed.

Lemma fraction_nonpos nsec :
  (Z.abs nsec < 1000000000)%Z -> (nsec <= 0)%Z ->
  - (1) <= div (of_int nsec) (of_int 1000000000) <= 0.
Proof.
  intros B N. rewrite Zle_Qle in N. change (inject_Z 0) with 0 in N.
  pose proof (int_small nsec 1000000000 B) as Bq.
  change (inject_Z 1000000000) with 1000000000 in Bq.
  pose proof (part nsec B) as P. unfold div. split.
  - apply (round_ge_int _ (-1)).
    + rewrite P. apply Qabs_lt; change (2 ^ 53) with 9007199254740992; lra.
    + rewrite P. change (inject_Z (-1)) with (- (1)). lra.
  - apply (round_le_int _ 0).
    + rewrite P. apply Qabs_lt; change (2 ^ 53) with 9007199254740992; lra.
    + rewrite P. change (inject_Z 0) with 0. lra.
Qed.

(** Adding a number of [[lo, hi]] to whole seconds, both integers within
    one of zero, gives a [float64] between the seconds plus [lo] and the
    seconds plus [hi]. *)
Lemma add_between sec (f : Q) (lo hi : Z) :
  (Z.abs sec < 2 ^ 34)%Z -> (-1 <= lo)%Z -> (hi <= 1)%Z ->
  inject_Z lo <= f -> f <= inject_Z hi ->
  inject_Z (sec + lo) <= add (of_int sec) f <= inject_Z (sec + hi).
Proof.
  intros B Lo Hi FLo FHi.
  pose proof (int_small sec (2 ^ 34) B) as Bq.
  change (inject_Z (2 ^ 34)) with 17179869184 in Bq.
  rewrite Zle_Qle in Lo, Hi.
  change (inject_Z (-1)) with (- (1)) in Lo. change (inject_Z 1) with 1 in Hi.
  pose proof (whole sec B) as W. unfold add.
  assert (Small : Qabs (of_int sec + f) < 2 ^ 53).
  { rewrite W. apply Qabs_lt; change (2 ^ 53) with 9007199254740992; lra. }
  split.
  - apply round_ge_int; [exact Small|]. rewrite W, inject_Z_plus. lra.
  - apply round_le_int; [exact Small|]. rewrite W, inject_Z_plus. lra.
Qed.


End float64_range.

(** Over the whole [int64] range, [int64(d.Seconds())] is the whole seconds
    of [d] or the next integer away from zero. *)
Lemma Seconds_within_one (d : time.Duration) :
  (- 2 ^ 63 <= d < 2 ^ 63)%Z ->
  (0 <= d -> Z.quot d time.Second <= float64.to_int64 (time.Seconds d)
                                  <= Z.quot d time.Second + 1)%Z /\
  (d <= 0 -> Z.quot d time.Second - 1 <= float64.to_int64 (time.Seconds d)
                                      <= Z.quot d time.Second)%Z.
Proof.
  intros Range. unfold time.Seconds, time.Second.
  assert (Sec : (Z.abs (Z.quot d 1000000000) < 2 ^ 34)%Z).
  { rewrite <- Z.quot_abs by lia. apply Z.quot_lt_upper_bound; lia. }
  assert (Nsec : (Z.abs (Z.rem d 1000000000) < 1000000000)%Z).
  { apply (Z.rem_bound_abs d 1000000000). lia. }
  split; intros Sign.
  - assert (S : (0 <= Z.quot d 1000000000)%Z) by (apply Z.quot_pos; lia).
    assert (N : (0 <= Z.rem d 1000000000)%Z) by (apply Z.rem_nonneg; lia).
    destruct (float64_range.fraction_nonneg _ Nsec N) as [F0 F1].
    destruct (float64_range.add_between _ _ 0 1 Sec ltac:(lia) ltac:(lia) F0 F1) as [Lo Hi].
    rewrite Z.add_0_r in Lo. rewrite inject_Z_plus in Hi.
    now apply float64_range.to_int64_upward.
  - assert (S : (Z.quot d 1000000000 <= 0)%Z).
    { rewrite <- (Z.opp_involutive d), Z.quot_opp_l by lia.
      assert (0 <= Z.quot (- d) 1000000000)%Z by (apply Z.quot_pos; lia). lia. }
    assert (N : (Z.rem d 1000000000 <= 0)%Z) by (apply Z.rem_nonpos; lia).
    destruct (float64_range.fraction_nonpos _ Nsec N) as [F1 F0].
    destruct (float64_range.add_between _ _ (-1) 0 Sec ltac:(lia) ltac:(lia) F1 F0) as [Lo Hi].
    rewrite Z.add_0_r in Hi. rewrite inject_Z_plus in Lo.
    now apply float64_range.to_int64_downward.
Qed.

(** A whole number of seconds comes back as it is, over the whole [int64]
    range. *)
Lemma Seconds_whole (d : time.Duration) :
  (- 2 ^ 63 <= d < 2 ^ 63)%Z -> Z.rem d time.Second = 0%Z ->
  float64.to_int64 (time.Seconds d) = Z.quot d time.Second.
Proof.
  intros Range Whole. unfold time.Seconds, time.Second in *.
  assert (Sec : (Z.abs (Z.quot d 1000000000) < 2 ^ 34)%Z).
  { rewrite <- Z.quot_abs by lia. apply Z.quot_lt_upper_bound; lia. }
  rewrite Whole.
  assert (F : float64.div (float64.of_int 0) (float64.of_int 1000000000) = 0%Q)
    by (apply float64_facts.round_zero; reflexivity).
  rewrite F.
  destruct (float64_range.add_between (Z.quot d 1000000000) 0%Q 0 0 Sec)
    as [Lo Hi]; try lia; try (change (inject_Z 0) with 0%Q; lra).
  rewrite Z.add_0_r in Lo, Hi.
  destruct (Z.le_ge_cases 0 (Z.quot d 1000000000)) as [P|N].
  - apply float64_facts.to_int64_nonneg; [exact P | exact Lo | lra].
  - apply float64_facts.to_int64_nonpos; [exact N | lra | exact Hi].
Qed.


(** ** More about validation *)

(** X1.  [PreRunE], verdict by verdict: it accepts exactly the options with a
    name, an address, a secret reference and a sink given either by a URI
    without coordinates or by all three coordinates (with or without a
    URI); each of its four messages stands for one cause, the first that
    applies in the order name, address, secret reference, sink. *)
Theorem PreRunE_verdict options :
  let required :=
    Name options <> EmptyString /\ Address options <> EmptyString /\
    SecretRef options <> EmptyString in
  let sink :=
    (SinkURI options <> EmptyString /\ SinkAPIVersion options = EmptyString /\
     SinkKind options = EmptyString /\ SinkName options = EmptyString) \/
    (SinkAPIVersion options <> EmptyString /\ SinkKind options <> EmptyString /\
     SinkName options <> EmptyString) in
  (PreRunE options = None <-> required /\ sink) /\
  (PreRunE options = Some nameRequired <-> Name options = EmptyString) /\
  (PreRunE options = Some addressRequired <->
   Name options <> EmptyString /\ Address options = EmptyString) /\
  (PreRunE options = Some secretRefRequired <->
   Name options <> EmptyString /\ Address options <> EmptyString /\
   SecretRef options = EmptyString) /\
  (PreRunE options = Some sinkRequired <-> required /\ ~ sink).
Proof.
  cbv zeta. unfold PreRunE, nonempty.
  split; [|split; [|split; [|split]]]; (split; intros Given);
    by_emptiness; simpl in *;
    try discriminate; try reflexivity; try tauto; intuition congruence.
Qed.

(** ** More about the run *)

Lemma one_more {A} (l : list A) (x : A) : (l ++ [x])%list <> l.
Proof.
  intros E. apply (f_equal (@List.length A)) in E.
  rewrite length_app in E. simpl in E. lia.
Qed.

Section MoreRun.
Variable url_Parse : string -> result url.URL.
Variable clients : pkg.Clients.

(** What it takes for the request to be sent, and what is sent. *)
Lemma execute_sends options w namespace address d :
  PreRunE options = None ->
  pkg.GetExplicitOrDefaultNamespace clients (Namespace options) = Ok namespace ->
  url_Parse (Address options) = Ok address ->
  AsSinkDestination url_Parse options namespace = Ok d ->
  requests (fst (execute url_Parse clients options w)) =
    (requests w ++ [(namespace, newSource namespace d address options)])%list.
Proof.
  intros Valid Resolved Parsed Built.
  rewrite execute_valid, RunE_steps, Resolved, Parsed, Built by exact Valid.
  cbv zeta.
  now destruct (pkg.VSphereClientSet clients namespace
                  (newSource namespace d address options)).
Qed.

Lemma execute_sent options w :
  requests (fst (execute url_Parse clients options w)) <> requests w ->
  PreRunE options = None /\
  exists namespace address d,
    pkg.GetExplicitOrDefaultNamespace clients (Namespace options) = Ok namespace /\
    url_Parse (Address options) = Ok address /\
    AsSinkDestination url_Parse options namespace = Ok d.
Proof.
  unfold execute. destruct (PreRunE options) as [err|]; [now intros []|].
  rewrite RunE_steps. intros Sent. split; [reflexivity|].
  destruct (pkg.GetExplicitOrDefaultNamespace clients (Namespace options))
    as [namespace|] eqn:R; [|exfalso; now apply Sent].
  destruct (url_Parse (Address options)) as [address|] eqn:P; [|exfalso; now apply Sent].
  destruct (AsSinkDestination url_Parse options namespace) as [d|] eqn:B;
    [|exfalso; now apply Sent].
  now exists namespace, address, d.
Qed.

Lemma execute_request options w ns source :
  requests (fst (execute url_Parse clients options w)) =
    (requests w ++ [(ns, source)])%list ->
  PreRunE options = None /\
  exists address d,
    pkg.GetExplicitOrDefaultNamespace clients (Namespace options) = Ok ns /\
    url_Parse (Address options) = Ok address /\
    AsSinkDestination url_Parse options ns = Ok d /\
    source = newSource ns d address options.
Proof.
  intros Sent.
  destruct (execute_sent options w) as (Valid & namespace & address & d & R & P & B).
  { rewrite Sent. apply one_more. }
  rewrite (execute_sends options w namespace address d Valid R P B) in Sent.
  apply app_inv_head in Sent. injection Sent as <- <-.
  split; [exact Valid|]. now exists address, d.
Qed.
End MoreRun.

(** X2.  A request is sent exactly when the options are valid, the namespace
    resolves, the address parses and the sink destination is built; the
    answer of the client plays no part in it. *)
Theorem request_sent_iff url_Parse clients options w :
  requests (fst (execute url_Parse clients options w)) <> requests w <->
  PreRunE options = None /\
  exists namespace address d,
    pkg.GetExplicitOrDefaultNamespace clients (Namespace options) = Ok namespace /\
    url_Parse (Address options) = Ok address /\
    AsSinkDestination url_Parse options namespace = Ok d.
Proof.
  split.
  - apply execute_sent.
  - intros (Valid & namespace & address & d & R & P & B).
    rewrite (execute_sends url_Parse clients options w namespace address d Valid R P B).
    apply one_more.
Qed.

(** X3.  Execution succeeds exactly when, on top of that, the client accepts
    the source built by [newSource]. *)
Theorem created_iff url_Parse clients options w :
  snd (execute url_Parse clients options w) = Ok tt <->
  PreRunE options = None /\
  exists namespace address d,
    pkg.GetExplicitOrDefaultNamespace clients (Namespace options) = Ok namespace /\
    url_Parse (Address options) = Ok address /\
    AsSinkDestination url_Parse options namespace = Ok d /\
    pkg.VSphereClientSet clients namespace (newSource namespace d address options) = None.
Proof.
  unfold execute. destruct (PreRunE options) as [err|].
  - split; [discriminate | now intros [[=] _]].
  - rewrite RunE_steps.
    destruct (pkg.GetExplicitOrDefaultNamespace clients (Namespace options))
      as [namespace|cause].
    2: { split; [discriminate | now intros (_ & ? & ? & ? & [=] & _)]. }
    destruct (url_Parse (Address options)) as [address|cause].
    2: { split; [discriminate | now intros (_ & ? & ? & ? & _ & [=] & _)]. }
    destruct (AsSinkDestination url_Parse options namespace) as [d|cause] eqn:Built.
    2: { split; [discriminate|]. intros (_ & ns & ? & ? & [= <-] & _ & B & _).
         rewrite Built in B. discriminate B. }
    cbv zeta.
    destruct (pkg.VSphereClientSet clients namespace (newSource namespace d address options))
      as [cause|] eqn:Answer.
    + split; [discriminate|].
      intros (_ & ns & a & d' & [= <-] & [= <-] & B & Accepted).
      rewrite Built in B. injection B as <-. rewrite Answer in Accepted. discriminate.
    + split; [|reflexivity]. intros _. split; [reflexivity|].
      now exists namespace, address, d.
Qed.

Lemma request_sent_iff_witness :
  PreRunE sample.referring = None /\
  requests (fst (execute fake.Parse sample.strict sample.referring fake.idle)) <>
    requests fake.idle.
Proof.
  split; [reflexivity|].
  apply (proj2 (request_sent_iff fake.Parse sample.strict sample.referring fake.idle)).
  split; [reflexivity|].
  exists "ns", fake.vcLocal,
    {| duckv1.Ref := sinkReference sample.referring "ns"; duckv1.URI := None |}.
  repeat split; reflexivity.
Defined.

Lemma created_iff_witness :
  PreRunE sample.referring = None /\
  snd (execute fake.Parse fake.accepting sample.referring fake.idle) = Ok tt.
Proof.
  split; [reflexivity|].
  apply (proj2 (created_iff fake.Parse fake.accepting sample.referring fake.idle)).
  split; [reflexivity|].
  exists "ns", fake.vcLocal,
    {| duckv1.Ref := sinkReference sample.referring "ns"; duckv1.URI := None |}.
  repeat split; reflexivity.
Defined.

(** X4.  An address that does not parse is found out only after validation and
    namespace resolution, before the sink is looked at: the error is
    [failed to parse source address: ] and the cause, and the world is left
    as it was. *)
Theorem address_unparsed url_Parse clients options w namespace cause :
  PreRunE options = None ->
  pkg.GetExplicitOrDefaultNamespace clients (Namespace options) = Ok namespace ->
  url_Parse (Address options) = Failed cause ->
  execute url_Parse clients options w =
    (w, Failed ("failed to parse source address: " ++ cause)).
Proof.
  intros Valid Resolved Unparsed.
  now rewrite execute_valid, RunE_steps, Resolved, Unparsed by exact Valid.
Qed.

Lemma address_unparsed_witness :
  PreRunE (sample.addressed ":vc" "http://sink") = None /\
  execute fake.Parse fake.accepting (sample.addressed ":vc" "http://sink") fake.idle =
    (fake.idle, Failed "failed to parse source address: missing protocol scheme").
Proof.
  split; [reflexivity|].
  exact (address_unparsed fake.Parse fake.accepting (sample.addressed ":vc" "http://sink")
           fake.idle "ns" "missing protocol scheme" eq_refl eq_refl eq_refl).
Defined.

(** X5.  A sink URI that does not parse is found out after the address: the
    error is [failed to parse sink address: ] and the cause, and the world
    is left as it was. *)
Theorem sink_unparsed url_Parse clients options w namespace address cause :
  PreRunE options = None ->
  pkg.GetExplicitOrDefaultNamespace clients (Namespace options) = Ok namespace ->
  url_Parse (Address options) = Ok address ->
  SinkURI options <> EmptyString ->
  url_Parse (SinkURI options) = Failed cause ->
  execute url_Parse clients options w =
    (w, Failed ("failed to parse sink address: " ++ cause)).
Proof.
  intros Valid Resolved Parsed Given Unparsed.
  rewrite execute_valid, RunE_steps, Resolved, Parsed by exact Valid.
  unfold AsSinkDestination. rewrite (sinkURL_set url_Parse options Given), Unparsed.
  reflexivity.
Qed.

Lemma sink_unparsed_witness :
  PreRunE (sample.addressed "https://vc.local" ":sink") = None /\
  execute fake.Parse fake.accepting (sample.addressed "https://vc.local" ":sink") fake.idle =
    (fake.idle, Failed "failed to parse sink address: missing protocol scheme").
Proof.
  split; [reflexivity|].
  apply (sink_unparsed fake.Parse fake.accepting
           (sample.addressed "https://vc.local" ":sink")
           fake.idle "ns" fake.vcLocal "missing protocol scheme");
    (reflexivity || discriminate).
Defined.

(** X6.  A source the client refuses was sent once, as [newSource] built it;
    the error is [failed to create source: ] and the client's cause, and
    nothing is printed. *)
Theorem create_refused url_Parse clients options w namespace address d cause :
  PreRunE options = None ->
  pkg.GetExplicitOrDefaultNamespace clients (Namespace options) = Ok namespace ->
  url_Parse (Address options) = Ok address ->
  AsSinkDestination url_Parse options namespace = Ok d ->
  pkg.VSphereClientSet clients namespace (newSource namespace d address options)
    = Some cause ->
  execute url_Parse clients options w =
    ({| requests := requests w ++ [(namespace, newSource namespace d address options)];
        stdout := stdout w |},
     Failed ("failed to create source: " ++ cause)).
Proof.
  intros Valid Resolved Parsed Built Refused.
  rewrite execute_valid, RunE_steps, Resolved, Parsed, Built by exact Valid.
  cbv zeta. now rewrite Refused.
Qed.

Lemma create_refused_witness :
  PreRunE (sample.addressed "https://vc.local" "http://sink") = None /\
  snd (execute fake.Parse sample.strict
         (sample.addressed "https://vc.local" "http://sink") fake.idle) =
    Failed "failed to create source: already exists".
Proof.
  split; [reflexivity|].
  rewrite (create_refused fake.Parse sample.strict
             (sample.addressed "https://vc.local" "http://sink") fake.idle
             "ns" fake.vcLocal fake.toSink "already exists"
             eq_refl eq_refl eq_refl eq_refl eq_refl).
  reflexivity.
Defined.

(** X7.  The source in a request is made of the options and of nothing else:
    the resolved namespace and the name, the parsed address, the TLS flag
    and the secret reference as given, and the sink destination as
    [AsSinkDestination] built it for that namespace. *)
Theorem request_content url_Parse clients options w ns source :
  requests (fst (execute url_Parse clients options w)) =
    (requests w ++ [(ns, source)])%list ->
  pkg.GetExplicitOrDefaultNamespace clients (Namespace options) = Ok ns /\
  v1alpha1.ObjectMeta source =
    {| metav1.Namespace := ns; metav1.Name := Name options |} /\
  url_Parse (Address options) =
    Ok (v1alpha1.Address (v1alpha1.VAuthSpec_ (v1alpha1.Spec source))) /\
  v1alpha1.SkipTLSVerify (v1alpha1.VAuthSpec_ (v1alpha1.Spec source)) =
    SkipTLSVerify options /\
  corev1.Name (v1alpha1.SecretRef (v1alpha1.VAuthSpec_ (v1alpha1.Spec source))) =
    SecretRef options /\
  AsSinkDestination url_Parse options ns =
    Ok (duckv1.Sink (v1alpha1.SourceSpec (v1alpha1.Spec source))).
Proof.
  intros Sent.
  destruct (execute_request url_Parse clients options w ns source Sent)
    as (_ & address & d & R & P & B & ->).
  now repeat split.
Qed.

Lemma request_content_witness :
  requests (fst (execute fake.Parse sample.strict sample.referring fake.idle)) =
    [("ns", newSource "ns"
              {| duckv1.Ref := sinkReference sample.referring "ns"; duckv1.URI := None |}
              fake.vcLocal sample.referring)] /\
  AsSinkDestination fake.Parse sample.referring "ns" =
    Ok {| duckv1.Ref := Some {| duckv1.APIVersion := "v1"; duckv1.Kind := "Service";
                                duckv1.Namespace := "ns"; duckv1.Name := "svc" |};
          duckv1.URI := None |}.
Proof.
  split; [reflexivity|].
  exact (proj2 (proj2 (proj2 (proj2 (proj2
           (request_content fake.Parse sample.strict sample.referring fake.idle "ns" _
              eq_refl)))))).
Defined.

(** X8.  A sink reference always points into the namespace of the source that
    carries it. *)
Theorem sink_reference_in_namespace url_Parse clients options w ns source ref :
  requests (fst (execute url_Parse clients options w)) =
    (requests w ++ [(ns, source)])%list ->
  duckv1.Ref (duckv1.Sink (v1alpha1.SourceSpec (v1alpha1.Spec source))) = Some ref ->
  duckv1.Namespace ref = metav1.Namespace (v1alpha1.ObjectMeta source) /\
  duckv1.Namespace ref = ns.
Proof.
  intros Sent Referred.
  destruct (execute_request url_Parse clients options w ns source Sent)
    as (_ & address & d & _ & _ & B & ->).
  apply AsSinkDestination_Ok in B as [R _]. simpl in Referred.
  rewrite R in Referred. unfold sinkReference in Referred.
  destruct (SinkAPIVersion options =? EmptyString); [discriminate|].
  injection Referred as <-. now split.
Qed.

Lemma sink_reference_in_namespace_witness :
  requests (fst (execute fake.Parse sample.strict sample.referring fake.idle)) <> [] /\
  forall ref,
    sinkReference sample.referring "ns" = Some ref -> duckv1.Namespace ref = "ns".
Proof.
  split; [discriminate|]. intros ref Referred.
  exact (proj2 (sink_reference_in_namespace fake.Parse sample.strict sample.referring
                  fake.idle "ns" _ ref eq_refl Referred)).
Defined.

(** X9.  The namespace enters the destination through the reference alone: a
    destination without [SinkAPIVersion] is the same for every namespace,
    and for any options the failure and the URI are. *)
Theorem destination_across_namespaces url_Parse so ns ns' :
  (SinkAPIVersion so = EmptyString ->
   AsSinkDestination url_Parse so ns = AsSinkDestination url_Parse so ns') /\
  (forall err, AsSinkDestination url_Parse so ns = Failed err <->
               AsSinkDestination url_Parse so ns' = Failed err) /\
  (forall d d', AsSinkDestination url_Parse so ns = Ok d ->
                AsSinkDestination url_Parse so ns' = Ok d' ->
                duckv1.URI d = duckv1.URI d').
Proof.
  unfold AsSinkDestination. destruct (sinkURL url_Parse so) as [apiURL|cause].
  - split; [|split].
    + intros E. now rewrite !sinkReference_unset.
    + intros err. split; discriminate.
    + now intros d d' [= <-] [= <-].
  - split; [reflexivity|]. split; [reflexivity | discriminate].
Qed.

(** ** More about the checkpoint seconds *)

(** X10.  Durations of whole seconds are stored exactly, whatever their size: the
    rounding of [float64] only ever touches durations with a fraction. *)
Theorem checkpoint_whole_seconds namespace sinkDestination address options :
  (- 2 ^ 63 <= CheckpointMaxAge options < 2 ^ 63)%Z ->
  (- 2 ^ 63 <= CheckpointPeriod options < 2 ^ 63)%Z ->
  Z.rem (CheckpointMaxAge options) time.Second = 0%Z ->
  Z.rem (CheckpointPeriod options) time.Second = 0%Z ->
  let config :=
    v1alpha1.CheckpointConfig
      (v1alpha1.Spec (newSource namespace sinkDestination address options)) in
  v1alpha1.MaxAgeSeconds config = Z.quot (CheckpointMaxAge options) time.Second /\
  v1alpha1.PeriodSeconds config = Z.quot (CheckpointPeriod options) time.Second.
Proof.
  intros AgeRange PeriodRange AgeWhole PeriodWhole. cbn.
  split; now apply Seconds_whole.
Qed.

Lemma checkpoint_whole_seconds_witness :
  Z.rem (CheckpointMaxAge (sample.addressed "https://vc.local" "http://sink")) time.Second
    = 0%Z /\
  v1alpha1.MaxAgeSeconds
    (v1alpha1.CheckpointConfig
       (v1alpha1.Spec
          (newSource "ns" fake.toSink fake.vcLocal
             (sample.addressed "https://vc.local" "http://sink")))) = 31536000%Z.
Proof.
  split; [reflexivity|].
  destruct (checkpoint_whole_seconds "ns" fake.toSink fake.vcLocal
              (sample.addressed "https://vc.local" "http://sink")) as [Age _];
    [vm_compute; split; [discriminate | reflexivity] ..
    | reflexivity | reflexivity | exact Age].
Defined.

(** X11.  Whatever the duration, what is stored is its whole seconds or the next
    integer away from zero: the rounding of [float64] never loses a second
    and never adds more than one. *)
Theorem checkpoint_seconds_within_one namespace sinkDestination address options :
  (- 2 ^ 63 <= CheckpointMaxAge options < 2 ^ 63)%Z ->
  (- 2 ^ 63 <= CheckpointPeriod options < 2 ^ 63)%Z ->
  let config :=
    v1alpha1.CheckpointConfig
      (v1alpha1.Spec (newSource namespace sinkDestination address options)) in
  let between (d : time.Duration) (stored : Z) :=
    ((0 <= d -> Z.quot d time.Second <= stored <= Z.quot d time.Second + 1) /\
     (d <= 0 -> Z.quot d time.Second - 1 <= stored <= Z.quot d time.Second))%Z in
  between (CheckpointMaxAge options) (v1alpha1.MaxAgeSeconds config) /\
  between (CheckpointPeriod options) (v1alpha1.PeriodSeconds config).
Proof.
  intros AgeRange PeriodRange. cbn.
  split; now apply Seconds_within_one.
Qed.

Lemma checkpoint_seconds_within_one_witness :
  (- 2 ^ 63 <= CheckpointMaxAge fake.longLived < 2 ^ 63)%Z /\
  (16777216 <=
   v1alpha1.MaxAgeSeconds
     (v1alpha1.CheckpointConfig
        (v1alpha1.Spec (newSource "ns" fake.toSink fake.vcLocal fake.longLived)))
   <= 16777217)%Z.
Proof.
  assert (Age : (- 2 ^ 63 <= CheckpointMaxAge fake.longLived < 2 ^ 63)%Z)
    by (vm_compute; split; [discriminate | reflexivity]).
  assert (Period : (- 2 ^ 63 <= CheckpointPeriod fake.longLived < 2 ^ 63)%Z)
    by (vm_compute; split; [discriminate | reflexivity]).
  split; [exact Age|].
  destruct (checkpoint_seconds_within_one "ns" fake.toSink fake.vcLocal fake.longLived
              Age Period) as [[Up _] _].
  apply Up. vm_compute. discriminate.
Defined.
